(** * mymickiewicz-data-preprocessor: the batch fetcher of [src/index.ts]

    A shallow embedding of [src/index.ts]: the two io-ts codecs
    ([TextsDataCodec], [TextDetailCodec]), the bounded-concurrency fetcher
    [makeConcurrentHttpsReqs] and the main flow, followed by the theorems
    that settle the claims made about them.

    Conventions.
    - JavaScript numbers that count things ([concurrency], the loop index,
      [urlBatch.length]) are integers, modelled in [Z].
    - The HTTP transport, the file system and [path] are external; they are
      the fields of the [Platform] interface.
    - An [async] computation is a state-passing function over a [World]
      that returns, throws, or runs out of fuel (the [for] loop of
      [makeConcurrentHttpsReqs] need not terminate). *)

From Stdlib Require Import ZArith Lia Ascii.
From stdpp Require Import base tactics option list strings gmap.

Local Open Scope string_scope.
Local Open Scope list_scope.
Local Open Scope Z_scope.

(** ** Untyped payloads *)

(** A deserialised JSON value, as [axios] hands it over in [response.data].
    No codec of the program looks inside a number, so numbers are kept as
    integers. *)
#[warnings="-register-all"]
Inductive json : Type :=
| JNull
| JBool (b : bool)
| JNum (n : Z)
| JStr (s : string)
| JArr (items : list json)
| JObj (fields : gmap string json).

(** A JavaScript value read from a property: [None] is [undefined]. *)
Definition unknown : Type := option json.

(** ** io-ts runtime types *)

Inductive Either (E A : Type) : Type :=
| Left (e : E)
| Right (a : A).
Arguments Left {E A} e.
Arguments Right {E A} a.

(** [_tag === 'Right'] *)
Definition isRight {E A} (r : Either E A) : bool :=
  match r with Right _ => true | Left _ => false end.

(** io-ts validation errors; each one is kept as the name of the type that
    rejected the value. *)
Definition Errors : Type := list string.

Definition Codec (A : Type) : Type := unknown → Either Errors A.

Module t.

(** [t.string]: [typeof u === 'string'] *)
Definition string_ : Codec string := λ u,
  match u with
  | Some (JStr s) => Right s
  | _ => Left ["string"]
  end.

(** [t.literal(value)]: [u === value] *)
Definition literal (value : string) : Codec string := λ u,
  match u with
  | Some (JStr s) => if decide (s = value) then Right s else Left ["literal"]
  | _ => Left ["literal"]
  end.

(** The element loop of [t.array]: every element is validated and all the
    errors are collected. *)
Fixpoint items {A} (item : Codec A) (us : list json) : Either Errors (list A) :=
  match us with
  | [] => Right []
  | u :: us' =>
      match item (Some u), items item us' with
      | Right a, Right as_ => Right (a :: as_)
      | Right _, Left es => Left es
      | Left e, Right _ => Left e
      | Left e, Left es => Left (e ++ es)
      end
  end.

(** [t.array(item)]: [Array.isArray(u)], then the element loop. *)
Definition array {A} (item : Codec A) : Codec (list A) := λ u,
  match u with
  | Some (JArr us) => items item us
  | _ => Left ["Array"]
  end.

(** [t.refinement(codec, predicate)] *)
Definition refinement {A} (codec : Codec A) (predicate : A → bool) : Codec A := λ u,
  match codec u with
  | Right a => if predicate a then Right a else Left ["refinement"]
  | Left e => Left e
  end.

(** The record check of [t.type]: the value is an object; a missing
    property reads as [undefined]. *)
Definition record (u : unknown) : option (gmap string json) :=
  match u with
  | Some (JObj o) => Some o
  | _ => None
  end.

Definition errors {A} (r : Either Errors A) : Errors :=
  match r with Left e => e | Right _ => [] end.

End t.

(** ** Configuration ([config]) *)

Module config.
Definition textsLang : string := "pol".
Definition textsAuthor : string := "adam-mickiewicz".
Definition reqConcurrency : Z := 10.
Definition apiBaseUrl : string := "https://wolnelektury.pl/api".
End config.

(** ** The two shape contracts *)

Record TextData : Type := { slug : string }.

Record TextDetail : Type :=
  { language : string; children : list string; txt : string }.

(** [t.type({ slug: t.string })] *)
Definition TextDataEntryCodec : Codec TextData := λ u,
  match t.record u with
  | None => Left ["{ slug: string }"]
  | Some o =>
      match t.string_ (o !! "slug") with
      | Right s => Right {| slug := s |}
      | Left e => Left e
      end
  end.

(** [TextsDataCodec = t.array(t.type({ slug: t.string }))] *)
Definition TextsDataCodec : Codec (list TextData) := t.array TextDataEntryCodec.

(** [TextDetailCodec]: the three properties are validated one after the
    other and the errors of all of them are collected. *)
Definition TextDetailCodec : Codec TextDetail := λ u,
  match t.record u with
  | None => Left ["{ language, children, txt }"]
  | Some o =>
      match t.literal config.textsLang (o !! "language"),
            t.refinement (t.array t.string_) (λ children, (length children =? 0)%nat)
              (o !! "children"),
            t.string_ (o !! "txt") with
      | Right l, Right c, Right x =>
          Right {| language := l; children := c; txt := x |}
      | rl, rc, rx => Left (t.errors rl ++ t.errors rc ++ t.errors rx)
      end
  end.

(** ** Exceptions, promises, responses *)

(** How an [axios.get] can fail. *)
Inductive axios_error : Type :=
| NetworkError
| BadStatus (status : Z)
| TimeoutExceeded.

Inductive exn : Type :=
| AxiosError (e : axios_error)
| Error (message : string)
| FsError (code : string)
| TypeError (message : string).

(** A promise, identified with the way it settles. *)
Inductive Promise (A : Type) : Type :=
| Fulfilled (a : A)
| Rejected (e : exn).
Arguments Fulfilled {A} a.
Arguments Rejected {A} e.

(** The two properties of an axios response that the program reads:
    [response.config.url] and [response.data]. *)
Record AxiosResponse : Type := { config_url : string; data : json }.

(** The promise of a request to [url], given how the request settles. *)
Definition settle (url : string) (settled : axios_error + json) : Promise AxiosResponse :=
  match settled with
  | inr body => Fulfilled {| config_url := url; data := body |}
  | inl e => Rejected (AxiosError e)
  end.

(** ** Observable events *)

(** The four [console.log] messages of the main flow; the elapsed time
    printed with the last one is not modelled. *)
Inductive console_msg : Type :=
| MsgGettingSlugs
| MsgFiltering
| MsgDownloading
| MsgDone.

#[export] Instance console_msg_eq_dec : EqDecision console_msg.
Proof. solve_decision. Defined.

(** What synchronous client code does: console, progress bar, file system. *)
Inductive cevent : Type :=
| Clear
| Log (m : console_msg)
| ProgStart (total : Z)
| ProgIncrement (amount : Z)
| Mkdir (path : string)
| WriteFile (path : string) (body : json).

Inductive event : Type :=
| EvRequest (url : string) (timeout : Z) (settled : axios_error + json)
| EvAwaitAll (n : nat)
| EvClient (c : cevent).

(** ** External collaborators *)

Class Platform : Type := {
  (** the remote service and the transport: a request with a timeout
      settles with an error or with a body *)
  Net : Type;
  respond : string → Z → Net → (axios_error + json) * Net;
  (** which of the rejections of one [Promise.all] settles first *)
  race : exn → list exn → exn;
  race_In : ∀ e es, race e es ∈ e :: es;
  (** the file system; an operation that fails gives an error code *)
  FS : Type;
  fs_exists : string → FS → bool;
  fs_mkdir : string → FS → option string * FS;
  fs_write : string → json → FS → option string * FS;
  (** [path.join] and [__dirname] *)
  path_join : list string → string;
  dirname : string
}.

Section Program.
Context `{Platform}.

Record World : Type := { net : Net; fs : FS; trace : list event }.

Definition emit (evs : list event) (w : World) : World :=
  {| net := net w; fs := fs w; trace := trace w ++ evs |}.

(** *** Asynchronous computations *)

Inductive res (A : Type) : Type :=
| Ok (a : A) (w : World)
| Exn (e : exn) (w : World)
| OutOfFuel.
Arguments Ok {A} a w.
Arguments Exn {A} e w.
Arguments OutOfFuel {A}.

Definition M (A : Type) : Type := World → res A.

Definition ret {A} (a : A) : M A := λ w, Ok a w.
Definition throw {A} (e : exn) : M A := λ w, Exn e w.
Definition bind {A B} (m : M A) (k : A → M B) : M B := λ w,
  match m w with
  | Ok a w' => k a w'
  | Exn e w' => Exn e w'
  | OutOfFuel => OutOfFuel
  end.

#[export] Instance M_ret : MRet M := @ret.
#[export] Instance M_bind : MBind M := λ A B k m, bind m k.

(** *** Synchronous client code (callbacks)

    A callback works on the file system and reports what it did; it has
    no access to the network. *)

Inductive cres (A : Type) : Type :=
| COk (a : A) (fs' : FS) (out : list cevent)
| CExn (e : exn) (fs' : FS) (out : list cevent).
Arguments COk {A} a fs' out.
Arguments CExn {A} e fs' out.

Definition C (A : Type) : Type := FS → cres A.

Definition cret {A} (a : A) : C A := λ s, COk a s [].
Definition cbind {A B} (c : C A) (k : A → C B) : C B := λ s,
  match c s with
  | COk a s' out =>
      match k a s' with
      | COk b s'' out' => COk b s'' (out ++ out')
      | CExn e s'' out' => CExn e s'' (out ++ out')
      end
  | CExn e s' out => CExn e s' out
  end.
Definition clog (e : cevent) : C () := λ s, COk () s [e].

#[export] Instance C_ret : MRet C := @cret.
#[export] Instance C_bind : MBind C := λ A B k c, cbind c k.

(** Running client code inside the asynchronous flow. *)
Definition lift {A} (c : C A) : M A := λ w,
  match c (fs w) with
  | COk a s out =>
      Ok a {| net := net w; fs := s; trace := trace w ++ map EvClient out |}
  | CExn e s out =>
      Exn e {| net := net w; fs := s; trace := trace w ++ map EvClient out |}
  end.

(** *** axios and promises *)

(** [axios.get(url, { timeout })]: the request is put in flight; the
    returned promise settles as the platform decides. *)
Definition axios_get (url : string) (timeout : Z) : M (Promise AxiosResponse) := λ w,
  let '(settled, net') := respond url timeout (net w) in
  Ok (settle url settled)
     {| net := net'; fs := fs w;
        trace := trace w ++ [EvRequest url timeout settled] |}.

(** [await p] *)
Definition await {A} (p : Promise A) : M A :=
  match p with
  | Fulfilled a => ret a
  | Rejected e => throw e
  end.

Definition fulfilled {A} (p : Promise A) : option A :=
  match p with Fulfilled a => Some a | Rejected _ => None end.
Definition rejected {A} (p : Promise A) : option exn :=
  match p with Fulfilled _ => None | Rejected e => Some e end.

(** [await Promise.all(ps)]: the flow is suspended until the promises
    settle; the values in submission order, or the first rejection. *)
Definition Promise_all {A} (ps : list (Promise A)) : M (list A) := λ w,
  let w' := emit [EvAwaitAll (length ps)] w in
  match omap rejected ps with
  | [] => Ok (omap fulfilled ps) w'
  | e :: es => Exn (race e es) w'
  end.

(** [xs.map(f)] where [f] has effects *)
Fixpoint mapM {A B} (f : A → M B) (xs : list A) : M (list B) :=
  match xs with
  | [] => mret []
  | x :: xs' => y ← f x; ys ← mapM f xs'; mret (y :: ys)
  end.

(** [xs.reduce(f, a)] where [f] has effects *)
Fixpoint reduceM {A B} (f : A → B → M A) (xs : list B) (a : A) : M A :=
  match xs with
  | [] => mret a
  | x :: xs' => a' ← f a x; reduceM f xs' a'
  end.

(** *** Arrays *)

(** The relative index of [Array.prototype.slice]. *)
Definition relative_index (len k : Z) : Z :=
  if k <? 0 then Z.max (len + k) 0 else Z.min k len.

(** [xs.slice(start, end)] *)
Definition slice {A} (xs : list A) (start end_ : Z) : list A :=
  let len := Z.of_nat (length xs) in
  let k := relative_index len start in
  let final := relative_index len end_ in
  take (Z.to_nat (final - k)) (drop (Z.to_nat k) xs).

(** *** makeConcurrentHttpsReqs *)

(** The optional [processData] argument. The accumulator is an [any[]]:
    with a reduce function its elements are what the function pushes,
    without one they are response bodies. *)
Inductive processData_t : Type → Type :=
| Supplied {A} (processData : list A → AxiosResponse → C (list A)) : processData_t A
| Omitted : processData_t json.

Definition format (formatUrl : option (string → string)) (url : string) : string :=
  match formatUrl with
  | Some f => f url
  | None => url
  end.

(** [if (updateProgress) updateProgress(amount)] *)
Definition progress (updateProgress : option (Z → C ())) (amount : Z) : M () :=
  match updateProgress with
  | Some f => lift (f amount)
  | None => mret ()
  end.

(** The requests of one batch:
    [await Promise.all(urlBatch.map((url) => axios.get(..., { timeout: 10000 })))] *)
Definition fetchBatch (formatUrl : option (string → string)) (urlBatch : list string)
  : M (list AxiosResponse) :=
  ps ← mapM (λ url, axios_get (format formatUrl url) 10000) urlBatch;
  Promise_all ps.

(** The [for] loop, from the state [(i, reqResults)] on. One unit of fuel
    per evaluation of the loop condition. *)
Fixpoint batchLoop (fuel : nat) (urls : list string) (concurrency : Z)
    (updateProgress : option (Z → C ())) (formatUrl : option (string → string))
    (i : Z) (reqResults : list AxiosResponse) : M (list AxiosResponse) :=
  match fuel with
  | O => λ _, OutOfFuel
  | S fuel' =>
      if i <? Z.of_nat (length urls) then
        let urlBatch := slice urls i (i + concurrency) in
        rs ← fetchBatch formatUrl urlBatch;
        _ ← progress updateProgress (Z.of_nat (length urlBatch));
        batchLoop fuel' urls concurrency updateProgress formatUrl
          (i + concurrency) (reqResults ++ rs)
      else mret reqResults
  end.

(** The fold after the loop. *)
Definition finish {A} (processData : processData_t A) (reqResults : list AxiosResponse)
  : M (list A) :=
  match processData in processData_t A return M (list A) with
  | Supplied f => reduceM (λ acc reqResult, lift (f acc reqResult)) reqResults []
  | Omitted => mret (map data reqResults)
  end.

Definition makeConcurrentHttpsReqs {A} (fuel : nat) (urls : list string) (concurrency : Z)
    (processData : processData_t A) (updateProgress : option (Z → C ()))
    (formatUrl : option (string → string)) : M (list A) :=
  reqResults ← batchLoop fuel urls concurrency updateProgress formatUrl 0 [];
  finish processData reqResults.

End Program.

Arguments Ok {_ A} a w.
Arguments Exn {_ A} e w.
Arguments OutOfFuel {_ A}.
Arguments COk {_ A} a fs' out.
Arguments CExn {_ A} e fs' out.

(** ** The main flow *)

(** [s.split('/')] *)
Fixpoint split_slash (s : string) : list string :=
  match s with
  | EmptyString => [EmptyString]
  | String c s' =>
      if Ascii.eqb c "/"%char then EmptyString :: split_slash s'
      else match split_slash s' with
           | seg :: segs => String c seg :: segs
           | [] => [String c EmptyString]
           end
  end.

Section Main.
Context `{Platform}.

Definition outputPath : string := path_join [dirname; ".."; "output"].
Definition outputRawPath : string := path_join [outputPath; "raw"].

(** [fs.existsSync(path)] *)
Definition existsSync (path : string) : C bool := λ s,
  COk (fs_exists path s) s [].

(** [fs.mkdirSync(path, { recursive: true })] *)
Definition mkdirSync (path : string) : C () := λ s,
  let '(failure, s') := fs_mkdir path s in
  match failure with
  | None => COk () s' [Mkdir path]
  | Some code => CExn (FsError code) s' [Mkdir path]
  end.

(** [fsPromises.writeFile(path, data)]: the write starts at once and the
    promise settles with its outcome. *)
Definition writeFile (path : string) (body : json) : C (Promise ()) := λ s,
  let '(failure, s') := fs_write path body s in
  COk match failure with
      | None => Fulfilled ()
      | Some code => Rejected (FsError code)
      end s' [WriteFile path body].

(** The reduce function of the filter phase. *)
Definition filterCollections (acc : list string) (currRes : AxiosResponse)
  : C (list string) :=
  let textDetailObj := data currRes in
  let textsDetailResult := TextDetailCodec (Some textDetailObj) in
  match textsDetailResult with
  | Right detail => mret (acc ++ [txt detail])
  | Left _ => mret acc
  end.

(** The reduce function of the download phase. *)
Definition writeText (acc : list (Promise ())) (currRes : AxiosResponse)
  : C (list (Promise ())) :=
  let url := config_url currRes in
  let text := data currRes in
  match last (split_slash url) with
  | Some name =>
      p ← writeFile (path_join [outputRawPath; name]) text;
      mret (acc ++ [p])
  | None => λ s, CExn (TypeError "path") s []
  end.

Definition incrementProgBar (amount : Z) : C () := clog (ProgIncrement amount).

Definition textsUrl : string :=
  config.apiBaseUrl +:+ "/authors/" +:+ config.textsAuthor +:+ "/books/".

Definition bookUrl (slug : string) : string :=
  config.apiBaseUrl +:+ "/books/" +:+ slug +:+ "/".

(** The body of [if (!fs.existsSync(outputRawPath)) { ... }]. *)
Definition populate (fuel : nat) : M () :=
  _ ← lift (mkdirSync outputRawPath);
  _ ← lift (clog (Log MsgGettingSlugs));
  p ← axios_get textsUrl 5000;
  response ← await p;
  let textsData := data response in
  match TextsDataCodec (Some textsData) with
  | Left _ => throw (Error "invalid texts data req response format")
  | Right textObjs =>
      let slugs := map slug textObjs in
      _ ← lift (clog (Log MsgFiltering));
      _ ← lift (clog (ProgStart (Z.of_nat (length slugs))));
      txtUrls ← makeConcurrentHttpsReqs fuel slugs config.reqConcurrency
                  (Supplied filterCollections) (Some incrementProgBar)
                  (Some bookUrl);
      _ ← lift (clog (Log MsgDownloading));
      _ ← lift (clog (ProgStart (Z.of_nat (length txtUrls))));
      writes ← makeConcurrentHttpsReqs fuel txtUrls config.reqConcurrency
                 (Supplied writeText) (Some incrementProgBar) None;
      _ ← Promise_all writes;
      mret ()
  end.

(** The main flow. The time measured around it is not modelled. *)
Definition main (fuel : nat) : M () :=
  _ ← lift (clog Clear);
  missing ← lift (b ← existsSync outputRawPath; mret (negb b));
  _ ← (if missing : bool then populate fuel else mret ());
  lift (clog (Log MsgDone)).

End Main.

(** ** Batches: consecutive chunks of a list *)

(** [chunks size xs] cuts [xs] into consecutive pieces of [size] elements,
    the last one possibly shorter. This is the partition the loop of
    [makeConcurrentHttpsReqs] is compared with. *)
Fixpoint chunks_aux {A} (n size : nat) (xs : list A) : list (list A) :=
  match n with
  | O => []
  | S n' =>
      match xs with
      | [] => []
      | _ :: _ => take size xs :: chunks_aux n' size (drop size xs)
      end
  end.

Definition chunks {A} (size : nat) (xs : list A) : list (list A) :=
  chunks_aux (length xs) size xs.

(** ** What a run shows: views of a trace *)

(** The requests, with the way each one settled. *)
Definition requests (evs : list event) : list (string * Z * (axios_error + json)) :=
  omap (λ e, match e with EvRequest u t s => Some (u, t, s) | _ => None end) evs.

(** The traffic: requests put in flight ([inl (url, timeout)]) and joins
    ([inr n]: the flow waits for [n] requests). *)
Definition wire (evs : list event) : list (string * Z + nat) :=
  omap (λ e, match e with
             | EvRequest u t _ => Some (inl (u, t))
             | EvAwaitAll n => Some (inr n)
             | EvClient _ => None
             end) evs.

(** The amounts passed to the progress bar. *)
Definition increments (evs : list event) : list Z :=
  omap (λ e, match e with EvClient (ProgIncrement n) => Some n | _ => None end) evs.

(** Joins ([inl n]: [n] requests have settled) and progress reports
    ([inr amount]), in the order they happened. *)
Definition joins_and_increments (evs : list event) : list (nat + Z) :=
  omap (λ e, match e with
             | EvAwaitAll n => Some (inl n)
             | EvClient (ProgIncrement amount) => Some (inr amount)
             | _ => None
             end) evs.

(** The files written. *)
Definition writes (evs : list event) : list (string * json) :=
  omap (λ e, match e with EvClient (WriteFile p b) => Some (p, b) | _ => None end) evs.

(** What one batch leaves in that view: its join, then its progress
    report. *)
Definition batch_progress (b : list string) : list (nat + Z) :=
  [inl (length b); inr (Z.of_nat (length b))].

(** The traffic of one batch: one request per target, then one join. *)
Definition batch_wire (formatUrl : option (string → string)) (b : list string)
  : list (string * Z + nat) :=
  map (λ url, inl (format formatUrl url, 10000)) b ++ [inr (length b)].

Section Specification.
Context `{Platform}.

(** The loop as the specification describes it: the batches are taken
    one after the other; the requests of a batch are issued and joined,
    then progress is reported. *)
Fixpoint runBatches (updateProgress : option (Z → C ()))
    (formatUrl : option (string → string)) (bs : list (list string))
    (reqResults : list AxiosResponse) : M (list AxiosResponse) :=
  match bs with
  | [] => mret reqResults
  | b :: bs' =>
      rs ← fetchBatch formatUrl b;
      _ ← progress updateProgress (Z.of_nat (length b));
      runBatches updateProgress formatUrl bs' (reqResults ++ rs)
  end.

(** The events of one batch whose requests settle as [ss]. *)
Definition batch_events (formatUrl : option (string → string)) (b : list string)
    (ss : list (axios_error + json)) : list event :=
  zip_with (λ url s, EvRequest (format formatUrl url) 10000 s) b ss
    ++ [EvAwaitAll (length b)].

(** No request of [evs] was rejected. *)
Definition all_fulfilled (evs : list event) : Prop :=
  Forall (λ x, ∃ body, x.2 = inr body) (requests evs).

(** A request of [evs] was rejected with [e]. *)
Definition rejected_with (e : axios_error) (evs : list event) : Prop :=
  ∃ url timeout, (url, timeout, inl e) ∈ requests evs.

(** The progress callback threw [e]. *)
Definition progress_threw (updateProgress : option (Z → C ())) (e : exn) : Prop :=
  ∃ f amount s s' out, updateProgress = Some f ∧ f amount s = CExn e s' out.

(** The reduce function threw [e]. *)
Definition processData_threw {A} (processData : processData_t A) (e : exn) : Prop :=
  match processData with
  | Supplied f => ∃ acc r s s' out, f acc r s = CExn e s' out
  | Omitted => False
  end.

(** Whenever [m] settles, it has added to the trace events that satisfy
    [P]. *)
Definition emits {A} (P : list event → Prop) (m : M A) : Prop :=
  ∀ w,
    match m w with
    | Ok _ w' | Exn _ w' => ∃ evs, trace w' = trace w ++ evs ∧ P evs
    | OutOfFuel => True
    end.

(** No request among [evs]. *)
Definition quiet (evs : list event) : Prop := requests evs = [].

End Specification.

(** ** The detail contract, in the words of the specification *)

(** The body is an object whose [language] is the configured literal, whose
    [children] is an empty array and whose [txt] is the string [x]. *)
Definition detail_contract (body : json) (x : string) : Prop :=
  ∃ o, body = JObj o ∧
       o !! "language" = Some (JStr config.textsLang) ∧
       o !! "children" = Some (JArr []) ∧
       o !! "txt" = Some (JStr x).

(** What the filter phase keeps of a response body: its [txt], when the
    body passes [TextDetailCodec]. *)
Definition accepted (body : json) : option string :=
  match TextDetailCodec (Some body) with
  | Right detail => Some (txt detail)
  | Left _ => None
  end.

(** ** Timeouts and phases, in the words of the specification *)

(** Every request of [evs] carries a timeout of 10000 ms. *)
Definition ten_seconds (evs : list event) : Prop :=
  Forall (λ x : string * Z * (axios_error + json), x.1.2 = 10000) (requests evs).

(** [evs] starts (as far as requests go) with the request of the works
    list, which carries 5000 ms; every later request carries 10000 ms. *)
Definition list_then_batches (evs : list event) : Prop :=
  ∃ s rest, requests evs = (textsUrl, 5000, s) :: rest ∧
            Forall (λ x : string * Z * (axios_error + json), x.1.2 = 10000) rest.

Definition is_log (m : console_msg) (e : event) : bool :=
  match e with
  | EvClient (Log m') => bool_decide (m = m')
  | _ => false
  end.

(** What follows the message [m] in a trace, and what precedes it. *)
Fixpoint after_log (m : console_msg) (evs : list event) : list event :=
  match evs with
  | [] => []
  | e :: evs' => if is_log m e then evs' else after_log m evs'
  end.

Fixpoint before_log (m : console_msg) (evs : list event) : list event :=
  match evs with
  | [] => []
  | e :: evs' => if is_log m e then [] else e :: before_log m evs'
  end.

(** The events of the filter phase (the metadata lookups) and of the
    download phase of a run of the main flow. *)
Definition filter_phase (evs : list event) : list event :=
  before_log MsgDownloading (after_log MsgFiltering evs).

Definition download_phase (evs : list event) : list event :=
  after_log MsgDownloading evs.

(** The claim on timeouts as the specification words it: a metadata
    lookup carries a shorter timeout than a body download. *)
Definition lookups_shorter_than_downloads (evs : list event) : Prop :=
  ∀ x y, x ∈ requests (filter_phase evs) → y ∈ requests (download_phase evs) →
         x.1.2 < y.1.2.

(** ** A scripted platform

    A platform whose service answers every request from a fixed function
    of the URL and the timeout, whose file system is the list of the paths
    created so far and never fails, and where the first rejection in
    submission order wins. It is used to run the program on concrete
    inputs. *)

Definition join_slash (segments : list string) : string :=
  foldr (λ seg rest, if decide (rest = "") then seg else seg +:+ "/" +:+ rest) "" segments.

Definition scripted (serve : string → Z → axios_error + json) : Platform :=
  {| Net := ();
     respond url timeout n := (serve url timeout, n);
     race e _ := e;
     race_In e es := list_elem_of_here e es;
     FS := list string;
     fs_exists path s := bool_decide (path ∈ s);
     fs_mkdir path s := (None, path :: s);
     fs_write path _ s := (None, path :: s);
     path_join := join_slash;
     dirname := "/app/src" |}.

(** The world a scripted run starts from: nothing on disk, nothing traced. *)
Definition fresh (serve : string → Z → axios_error + json) : @World (scripted serve) :=
  @Build_World (scripted serve) () [] [].

(** A JSON object given by its properties. *)
Definition obj (properties : list (string * json)) : json :=
  JObj (list_to_map properties).

(** A service that answers every request with the requested URL as body. *)
Definition echo (url : string) (timeout : Z) : axios_error + json := inr (JStr url).

(** A service where nothing can be reached. *)
Definition unreachable (url : string) (timeout : Z) : axios_error + json :=
  inl NetworkError.

(** A service where every target but ["b"] answers with its URL. *)
Definition without_b (url : string) (timeout : Z) : axios_error + json :=
  if decide (url = "b") then inl NetworkError else inr (JStr url).

(** A small library: three works, of which ["b"] is a collection; every
    other URL is answered with a text. The entries carry properties that
    the contracts do not name. *)
Definition library (url : string) (timeout : Z) : axios_error + json :=
  if decide (url = textsUrl) then
    inr (JArr [obj [("slug", JStr "a")];
               obj [("slug", JStr "b"); ("title", JStr "B")];
               obj [("slug", JStr "c")]])
  else if decide (url = bookUrl "a") then
    inr (obj [("language", JStr "pol"); ("children", JArr []);
              ("txt", JStr "https://h/media/a.txt")])
  else if decide (url = bookUrl "b") then
    inr (obj [("language", JStr "pol"); ("children", JArr [JStr "b-1"]);
              ("txt", JStr "https://h/media/b.txt")])
  else if decide (url = bookUrl "c") then
    inr (obj [("language", JStr "pol"); ("children", JArr []);
              ("txt", JStr "https://h/media/c.txt"); ("epoch", JStr "Romantyzm")])
  else inr (JStr "Litwo! Ojczyzno moja!").

(** A service whose list of works is not a list. *)
Definition broken (url : string) (timeout : Z) : axios_error + json :=
  inr (obj [("detail", JStr "Not found.")]).

(** ** The rest of the file: helpers for its statements *)

(** [segments.join('/')] *)
Definition join_segments (segments : list string) : string :=
  String.concat "/" segments.

(** The final path segment of a URL: [url.split('/').pop()]. *)
Definition basename (url : string) : string :=
  default "" (last (split_slash url)).

Section Download.
Context `{Platform}.

(** The file that the download phase writes for a response. *)
Definition file_of (r : AxiosResponse) : string * json :=
  (path_join [outputRawPath; basename (config_url r)], data r).

(** Starting the writes of [files] one after the other: the promises, and
    the file system they leave. *)
Fixpoint write_all (files : list (string * json)) (s : FS) : list (Promise ()) * FS :=
  match files with
  | [] => ([], s)
  | (path, body) :: files' =>
      let '(failure, s') := fs_write path body s in
      let '(ps, s'') := write_all files' s' in
      (match failure with
       | None => Fulfilled ()
       | Some code => Rejected (FsError code)
       end :: ps, s'')
  end.

(** *** The earlier version of the fetcher (no progress callback) *)

Fixpoint batchLoop_v2 (fuel : nat) (urls : list string) (concurrency : Z)
    (formatUrl : option (string → string))
    (i : Z) (reqResults : list AxiosResponse) : M (list AxiosResponse) :=
  match fuel with
  | O => λ _, OutOfFuel
  | S fuel' =>
      if i <? Z.of_nat (length urls) then
        let urlBatch := slice urls i (i + concurrency) in
        rs ← fetchBatch formatUrl urlBatch;
        batchLoop_v2 fuel' urls concurrency formatUrl (i + concurrency) (reqResults ++ rs)
      else mret reqResults
  end.

Definition makeConcurrentHttpsReqs_v2 {A} (fuel : nat) (urls : list string)
    (concurrency : Z) (processData : processData_t A)
    (formatUrl : option (string → string)) : M (list A) :=
  reqResults ← batchLoop_v2 fuel urls concurrency formatUrl 0 [];
  match processData in processData_t A return M (list A) with
  | Supplied f => reduceM (λ acc reqResult, lift (f acc reqResult)) reqResults []
  | Omitted => mret (map data reqResults)
  end.

End Download.

(** What the progress bar is told: [inl total] for [progBar.start(total, 0)],
    [inr amount] for [progBar.increment(amount)]. *)
Definition bar (evs : list event) : list (Z + Z) :=
  omap (λ e, match e with
             | EvClient (ProgStart total) => Some (inl total)
             | EvClient (ProgIncrement amount) => Some (inr amount)
             | _ => None
             end) evs.

(** What client code did, in order. *)
Definition clients (evs : list event) : list cevent :=
  omap (λ e, match e with EvClient c => Some c | _ => None end) evs.

(** A service with no work to offer. *)
Definition vacant (url : string) (timeout : Z) : axios_error + json := inr (JArr []).

(** The small library with one text out of reach: the download of ["c"]
    is rejected, that of ["a"] is answered. *)
Definition torn (url : string) (timeout : Z) : axios_error + json :=
  if decide (url = "https://h/media/c.txt") then inl NetworkError
  else library url timeout.

(** No file is written among [evs]. *)
Definition no_write (evs : list event) : Prop := writes evs = [].

(** ** The codecs *)

Lemma items_string_length (us : list json) (xs : list string) :
  t.items t.string_ us = Right xs → length xs = length us.
Proof.
  revert xs. induction us as [|u us IH]; intros xs Hxs; cbn [t.items] in Hxs.
  - by simplify_eq.
  - destruct (t.string_ (Some u)), (t.items t.string_ us) as [|ys]; simplify_eq.
    cbn. f_equal. by apply IH.
Qed.

Lemma string_Right (u : unknown) (x : string) :
  t.string_ u = Right x → u = Some (JStr x).
Proof. destruct u as [[]|]; cbn; congruence. Qed.

Lemma literal_Right (value : string) (u : unknown) (l : string) :
  t.literal value u = Right l → u = Some (JStr value) ∧ l = value.
Proof.
  destruct u as [[| | |s| |]|]; cbn; try congruence.
  destruct (decide (s = value)) as [->|]; [|congruence]. by intros [= <-].
Qed.

Lemma empty_strings_Right (u : unknown) (c : list string) :
  t.refinement (t.array t.string_) (λ children, (length children =? 0)%nat) u = Right c →
  u = Some (JArr []) ∧ c = [].
Proof.
  unfold t.refinement, t.array.
  destruct u as [[| | | |us|]|]; try congruence.
  destruct (t.items t.string_ us) as [|cs] eqn:Hitems; [congruence|].
  destruct (Nat.eqb_spec (length cs) 0) as [Hnil|]; [|congruence].
  intros [= <-]. apply items_string_length in Hitems. rewrite Hnil in Hitems.
  destruct cs; [|done]. by destruct us.
Qed.

(** [TextDetailCodec] accepts exactly the bodies of the detail contract,
    and hands over their [txt]. *)
Lemma TextDetailCodec_Right (body : json) (detail : TextDetail) :
  TextDetailCodec (Some body) = Right detail ↔
  detail_contract body (txt detail) ∧
  language detail = config.textsLang ∧ children detail = [].
Proof.
  unfold detail_contract. split.
  - unfold TextDetailCodec.
    destruct (t.record (Some body)) as [o|] eqn:Ho; [|congruence].
    assert (body = JObj o) as -> by (destruct body; cbn in Ho; congruence).
    destruct (t.literal _ _) as [|l] eqn:Hl; [congruence|].
    destruct (t.refinement _ _ _) as [|c] eqn:Hc; [congruence|].
    destruct (t.string_ _) as [|x] eqn:Hx; [congruence|].
    intros [= <-]. cbn [language children txt].
    apply literal_Right in Hl as [Hl ->].
    apply empty_strings_Right in Hc as [Hc ->].
    apply string_Right in Hx.
    split; [|done]. by exists o.
  - intros [(o & -> & Hl & Hc & Hx) [Hlang Hchildren]].
    unfold TextDetailCodec. cbn [t.record].
    rewrite Hl, Hc, Hx. cbn. rewrite decide_True by done.
    destruct detail as [l c x]. cbn in *. by subst.
Qed.

Lemma accepted_Some (body : json) (x : string) :
  accepted body = Some x ↔ detail_contract body x.
Proof.
  unfold accepted. split.
  - destruct (TextDetailCodec (Some body)) as [|detail] eqn:Hd; [done|].
    intros [= <-]. by apply TextDetailCodec_Right in Hd as [? _].
  - intros Hx.
    assert (TextDetailCodec (Some body)
            = Right {| language := config.textsLang; children := []; txt := x |}) as ->;
      [|done].
    by apply TextDetailCodec_Right.
Qed.

Section Chunks.
Context {A : Type}.
Implicit Types (xs : list A) (n size k : nat).

Lemma chunks_aux_nil n size : chunks_aux n size (@nil A) = [].
Proof. by destruct n. Qed.

Lemma chunks_aux_concat n size xs :
  (length xs ≤ n)%nat → (1 ≤ size)%nat → concat (chunks_aux n size xs) = xs.
Proof.
  revert xs. induction n as [|n IH]; intros xs Hn Hs.
  - destruct xs; [done | simpl in Hn; lia].
  - destruct xs as [|x xs]; [done|].
    cbn [chunks_aux concat]. rewrite IH; [apply take_drop | | done].
    rewrite length_drop. simpl in *. lia.
Qed.

Lemma chunks_aux_enough n size xs :
  (length xs ≤ n)%nat → (1 ≤ size)%nat →
  chunks_aux n size xs = chunks size xs.
Proof.
  unfold chunks. remember (length xs) as m eqn:Hm.
  revert n xs Hm. induction m as [m IH] using lt_wf_ind. intros n xs -> Hn Hs.
  destruct xs as [|x xs]; [by rewrite chunks_aux_nil|].
  destruct n as [|n]; [simpl in Hn; lia|].
  cbn [chunks_aux length]. f_equal.
  assert (length (drop size (x :: xs)) < length (x :: xs))%nat as Hlt
    by (rewrite length_drop; simpl; lia).
  rewrite (IH _ Hlt n _ eq_refl); [|simpl in *; lia|done].
  rewrite (IH _ Hlt (length xs) _ eq_refl); [done| |done].
  simpl in Hlt. lia.
Qed.

(** Every chunk is non-empty and has at most [size] elements; every
    chunk but the last has exactly [size]. *)
Lemma chunks_aux_sizes n size xs k b :
  (1 ≤ size)%nat → chunks_aux n size xs !! k = Some b →
  (1 ≤ length b ≤ size)%nat ∧
  (S k < length (chunks_aux n size xs) → length b = size)%nat.
Proof.
  intros Hs. revert xs k. induction n as [|n IH]; intros xs k Hk; [done|].
  destruct xs as [|x xs]; [done|]. cbn [chunks_aux] in *.
  destruct k as [|k].
  - simpl in Hk. injection Hk as <-. rewrite length_take. split; [simpl; lia|].
    cbn [length]. intros Hlen.
    destruct (drop size (x :: xs)) eqn:Hd.
    + rewrite chunks_aux_nil in Hlen. simpl in Hlen. lia.
    + apply (f_equal length) in Hd. rewrite length_drop in Hd. simpl in *. lia.
  - simpl in Hk. destruct (IH _ _ Hk) as [? Hfull]. split; [done|].
    cbn [length]. intros ?. apply Hfull. lia.
Qed.

(** The number of chunks is the ceiling of [length xs / size]. *)
Lemma chunks_aux_count n size xs :
  (length xs ≤ n)%nat → (1 ≤ size)%nat →
  Z.of_nat (length (chunks_aux n size xs)) =
  (Z.of_nat (length xs) + Z.of_nat size - 1) / Z.of_nat size.
Proof.
  revert xs. induction n as [|n IH]; intros xs Hn Hs.
  - destruct xs; [|simpl in Hn; lia]. simpl.
    symmetry. apply Z.div_small. lia.
  - destruct xs as [|x xs].
    + simpl. symmetry. apply Z.div_small. lia.
    + cbn [chunks_aux]. rewrite length_cons, Nat2Z.inj_succ, IH;
        [|rewrite length_drop; simpl in *; lia|done].
      rewrite length_drop.
      destruct (decide (length (x :: xs) ≤ size)%nat) as [Hle|Hgt].
      * replace (length (x :: xs) - size)%nat with 0%nat by lia.
        rewrite (Z.div_small (Z.of_nat 0 + _ - 1)) by lia.
        change (Z.succ 0) with 1.
        apply (Z.div_unique _ _ 1 (Z.of_nat (length (x :: xs)) - 1)).
        -- left. simpl in *. lia.
        -- lia.
      * rewrite Nat2Z.inj_sub by lia.
        rewrite <- Z.add_1_r, <- Z.div_add by lia. f_equal. lia.
Qed.

End Chunks.


Section Fetcher.
Context `{Platform}.


Lemma run_bind {A B} (m : M A) (k : A → M B) (w : World) :
  (x ← m; k x) w =
  match m w with
  | Ok a w' => k a w'
  | Exn e w' => Exn e w'
  | OutOfFuel => OutOfFuel
  end.
Proof. reflexivity. Qed.

Lemma run_ret {A} (a : A) (w : World) : mret (M := M) a w = Ok a w.
Proof. reflexivity. Qed.

(** *** Slices *)

Lemma slice_take_drop {A} (xs : list A) (i c : Z) :
  0 ≤ i → 0 ≤ c →
  slice xs i (i + c) = take (Z.to_nat c) (drop (Z.to_nat i) xs).
Proof.
  intros Hi Hc. unfold slice, relative_index.
  destruct (Z.ltb_spec i 0); [lia|]. destruct (Z.ltb_spec (i + c) 0); [lia|].
  destruct (decide (Z.of_nat (length xs) ≤ i)) as [Hge|Hlt].
  - rewrite !Z.min_r by lia. rewrite !drop_ge by lia. by rewrite !take_nil.
  - rewrite (Z.min_l i) by lia.
    rewrite <- (take_ge (drop (Z.to_nat i) xs) (length xs - Z.to_nat i)) at 2
      by (rewrite length_drop; lia).
    rewrite take_take. f_equal. lia.
Qed.

(** *** The loop processes the chunks *)

Lemma batchLoop_S fuel urls concurrency updateProgress formatUrl i reqResults :
  batchLoop (S fuel) urls concurrency updateProgress formatUrl i reqResults =
  if i <? Z.of_nat (length urls) then
    rs ← fetchBatch formatUrl (slice urls i (i + concurrency));
    _ ← progress updateProgress (Z.of_nat (length (slice urls i (i + concurrency))));
    batchLoop fuel urls concurrency updateProgress formatUrl
      (i + concurrency) (reqResults ++ rs)
  else mret reqResults.
Proof. reflexivity. Qed.

Lemma batchLoop_runBatches urls concurrency updateProgress formatUrl :
  1 ≤ concurrency →
  ∀ n i reqResults w,
    0 ≤ i → (length (drop (Z.to_nat i) urls) ≤ n)%nat →
    batchLoop (S n) urls concurrency updateProgress formatUrl i reqResults w =
    runBatches updateProgress formatUrl
      (chunks_aux n (Z.to_nat concurrency) (drop (Z.to_nat i) urls)) reqResults w.
Proof.
  intros Hc. induction n as [|n IH]; intros i acc w Hi Hn.
  - rewrite batchLoop_S. cbn [chunks_aux runBatches]. rewrite length_drop in Hn.
    destruct (Z.ltb_spec i (Z.of_nat (length urls))); [lia|done].
  - rewrite batchLoop_S. destruct (Z.ltb_spec i (Z.of_nat (length urls))) as [Hlt|Hge].
    + destruct (drop (Z.to_nat i) urls) as [|u rest] eqn:Hd.
      { apply (f_equal length) in Hd. rewrite length_drop in Hd. simpl in Hd. lia. }
      rewrite slice_take_drop by lia. rewrite Hd.
      cbn [chunks_aux runBatches]. rewrite !run_bind.
      destruct (fetchBatch _ _ w) as [rs w1| |]; [|done|done].
      rewrite !run_bind.
      destruct (progress _ _ w1) as [[] w2| |]; [|done|done].
      rewrite IH; [|lia|].
      * rewrite <- Hd, drop_drop. do 3 f_equal. lia.
      * assert (length (drop (Z.to_nat i) urls) = S (length rest)) as Hl by by rewrite Hd.
        rewrite length_drop in *. simpl in Hn. lia.
    + rewrite drop_ge by lia. by rewrite chunks_aux_nil.
Qed.

(** *** One batch *)

Lemma mapM_axios_get formatUrl b :
  ∀ w, ∃ ss w',
    length ss = length b ∧
    mapM (λ url, axios_get (format formatUrl url) 10000) b w =
      Ok (zip_with (λ url s, settle (format formatUrl url) s) b ss) w' ∧
    trace w' =
      trace w ++ zip_with (λ url s, EvRequest (format formatUrl url) 10000 s) b ss.
Proof.
  induction b as [|url b IH]; intros w.
  - exists [], w. by rewrite app_nil_r.
  - cbn [mapM]. rewrite run_bind. unfold axios_get at 1.
    destruct (respond _ _ _) as [s net1].
    destruct (IH {| net := net1; fs := fs w;
                    trace := trace w ++ [EvRequest (format formatUrl url) 10000 s] |})
      as (ss & w' & Hlen & Hrun & Htr).
    exists (s :: ss), w'. split; [simpl; lia|].
    rewrite run_bind, Hrun, run_ret. split; [done|].
    rewrite Htr. cbn [trace zip_with]. by rewrite <- app_assoc.
Qed.

Lemma settle_rejected formatUrl b :
  ∀ ss x,
    x ∈ omap rejected (zip_with (λ url s, settle (format formatUrl url) s) b ss) →
    ∃ e, x = AxiosError e ∧ inl e ∈ ss.
Proof.
  induction b as [|url b IH]; intros [|s ss] x Hx; try by inversion Hx.
  cbn [zip_with omap] in Hx. destruct s as [e|body]; cbn in Hx.
  - apply elem_of_cons in Hx as [->|Hx].
    + exists e. split; [done|]. apply elem_of_cons. by left.
    + destruct (IH _ _ Hx) as (e' & -> & ?). exists e'. split; [done|].
      apply elem_of_cons. by right.
  - destruct (IH _ _ Hx) as (e' & -> & ?). exists e'. split; [done|].
    apply elem_of_cons. by right.
Qed.

Lemma settle_fulfilled formatUrl b :
  ∀ ss,
    length ss = length b →
    omap rejected (zip_with (λ url s, settle (format formatUrl url) s) b ss) = [] →
    let rs := omap fulfilled (zip_with (λ url s, settle (format formatUrl url) s) b ss) in
    ss = map (λ r, inr (data r)) rs ∧ map config_url rs = map (format formatUrl) b.
Proof.
  induction b as [|url b IH]; intros [|s ss] Hlen Hrej; try done.
  cbn [zip_with omap] in *. destruct s as [e|body]; cbn in *; [done|].
  destruct (IH ss) as [Hss Hurls]; [lia|done|].
  split; cbn; f_equal; [exact Hss | exact Hurls].
Qed.


Lemma fetchBatch_spec formatUrl b w :
  ∃ ss, length ss = length b ∧
    match fetchBatch formatUrl b w with
    | Ok rs w' =>
        trace w' = trace w ++ batch_events formatUrl b ss ∧
        ss = map (λ r, inr (data r)) rs ∧
        map config_url rs = map (format formatUrl) b
    | Exn e w' =>
        trace w' = trace w ++ batch_events formatUrl b ss ∧
        ∃ e', e = AxiosError e' ∧ inl e' ∈ ss
    | OutOfFuel => False
    end.
Proof.
  destruct (mapM_axios_get formatUrl b w) as (ss & w1 & Hlen & Hrun & Htr).
  exists ss. split; [done|].
  unfold fetchBatch. rewrite run_bind, Hrun. unfold Promise_all.
  assert (trace (emit [EvAwaitAll
            (length (zip_with (λ url s, settle (format formatUrl url) s) b ss))] w1)
          = trace w ++ batch_events formatUrl b ss) as Hemit.
  { cbn [emit trace]. rewrite Htr, length_zip_with_l_eq by done.
    unfold batch_events. by rewrite app_assoc. }
  destruct (omap rejected _) as [|x xs] eqn:Hrej.
  - split; [done|]. by apply settle_fulfilled.
  - split; [done|]. apply (settle_rejected formatUrl b ss).
    rewrite Hrej. apply race_In.
Qed.

Lemma progress_spec updateProgress amount w :
  ∃ out,
    match progress updateProgress amount w with
    | Ok _ w' => trace w' = trace w ++ map EvClient out
    | Exn e w' =>
        trace w' = trace w ++ map EvClient out ∧ progress_threw updateProgress e
    | OutOfFuel => False
    end.
Proof.
  destruct updateProgress as [f|]; cbn [progress].
  - unfold lift. destruct (f amount (fs w)) as [[] s out|e s out] eqn:Hf;
      exists out; [done|]. split; [done|]. by exists f, amount, (fs w), s, out.
  - exists []. rewrite run_ret. cbn. by rewrite app_nil_r.
Qed.

(** *** Views of the events of a batch *)

Lemma requests_app evs1 evs2 : requests (evs1 ++ evs2) = requests evs1 ++ requests evs2.
Proof. apply omap_app. Qed.

Lemma wire_app evs1 evs2 : wire (evs1 ++ evs2) = wire evs1 ++ wire evs2.
Proof. apply omap_app. Qed.

Lemma requests_client out : requests (map EvClient out) = [].
Proof. by induction out. Qed.

Lemma wire_client out : wire (map EvClient out) = [].
Proof. by induction out. Qed.

Lemma requests_batch formatUrl b ss :
  requests (batch_events formatUrl b ss) =
  zip_with (λ url s, (format formatUrl url, 10000, s)) b ss.
Proof.
  unfold batch_events. rewrite requests_app, app_nil_r.
  revert ss. induction b as [|url b IH]; intros [|s ss]; try done.
  cbn. f_equal. apply IH.
Qed.

Lemma requests_batch_fulfilled formatUrl b rs :
  map config_url rs = map (format formatUrl) b →
  requests (batch_events formatUrl b (map (λ r, inr (data r)) rs)) =
  map (λ r, (config_url r, 10000, inr (data r))) rs.
Proof.
  rewrite requests_batch. revert rs.
  induction b as [|url b IH]; intros [|r rs] Hurls; try done.
  injection Hurls as Hurl Hurls. cbn. rewrite Hurl. f_equal. by apply IH.
Qed.

Lemma wire_batch formatUrl b ss :
  length ss = length b →
  wire (batch_events formatUrl b ss) = batch_wire formatUrl b.
Proof.
  intros Hlen. unfold batch_events, batch_wire. rewrite wire_app. f_equal.
  revert ss Hlen. induction b as [|url b IH]; intros [|s ss] Hlen; try done.
  cbn. f_equal. apply IH. simpl in Hlen. lia.
Qed.


Lemma all_fulfilled_app evs1 evs2 :
  all_fulfilled evs1 → all_fulfilled evs2 → all_fulfilled (evs1 ++ evs2).
Proof. unfold all_fulfilled. rewrite requests_app. apply Forall_app_2. Qed.

Lemma all_fulfilled_client out : all_fulfilled (map EvClient out).
Proof. unfold all_fulfilled. by rewrite requests_client. Qed.

Lemma all_fulfilled_responses evs rs :
  requests evs = map (λ r, (config_url r, 10000, inr (data r))) rs →
  all_fulfilled evs.
Proof.
  unfold all_fulfilled. intros ->. apply Forall_forall. intros x Hx.
  apply list_elem_of_fmap in Hx as (r & -> & _). by exists (data r).
Qed.

Lemma all_fulfilled_not_rejected evs e :
  all_fulfilled evs → ¬ rejected_with e evs.
Proof.
  intros Hall (url & timeout & Hin).
  by destruct (proj1 (Forall_forall _ _) Hall _ Hin) as [body ?].
Qed.

Lemma rejected_with_app_l e evs1 evs2 :
  rejected_with e evs1 → rejected_with e (evs1 ++ evs2).
Proof.
  intros (url & timeout & Hin). exists url, timeout.
  rewrite requests_app. apply elem_of_app. by left.
Qed.

Lemma rejected_with_app_r e evs1 evs2 :
  rejected_with e evs2 → rejected_with e (evs1 ++ evs2).
Proof.
  intros (url & timeout & Hin). exists url, timeout.
  rewrite requests_app. apply elem_of_app. by right.
Qed.

Lemma rejected_with_batch formatUrl b ss e :
  length ss = length b → inl e ∈ ss →
  rejected_with e (batch_events formatUrl b ss).
Proof.
  intros Hlen Hin. unfold rejected_with. rewrite requests_batch.
  revert ss Hlen Hin. induction b as [|url b IH]; intros [|s ss] Hlen Hin;
    try by inversion Hin.
  apply elem_of_cons in Hin as [<-|Hin].
  - exists (format formatUrl url), 10000. cbn. apply elem_of_cons. by left.
  - destruct (IH ss) as (u & t & ?); [simpl in Hlen; lia|done|].
    exists u, t. cbn. apply elem_of_cons. by right.
Qed.

(** *** What a run over batches does *)

Lemma runBatches_spec updateProgress formatUrl bs :
  ∀ reqResults w,
    match runBatches updateProgress formatUrl bs reqResults w with
    | Ok rs w' =>
        ∃ evs new,
          trace w' = trace w ++ evs ∧ rs = reqResults ++ new ∧
          wire evs = flat_map (batch_wire formatUrl) bs ∧
          requests evs = map (λ r, (config_url r, 10000, inr (data r))) new ∧
          map config_url new = map (format formatUrl) (concat bs)
    | Exn e w' =>
        ∃ evs k,
          trace w' = trace w ++ evs ∧ (k < length bs)%nat ∧
          wire evs = flat_map (batch_wire formatUrl) (take (S k) bs) ∧
          ((all_fulfilled evs ∧ progress_threw updateProgress e) ∨
           ∃ e' pre n,
             e = AxiosError e' ∧ evs = pre ++ [EvAwaitAll n] ∧ rejected_with e' evs)
    | OutOfFuel => False
    end.
Proof.
  induction bs as [|b bs IH]; intros acc w.
  { cbn. exists [], []. by rewrite !app_nil_r. }
  cbn [runBatches]. rewrite run_bind.
  destruct (fetchBatch_spec formatUrl b w) as (ss & Hlen & Hfetch).
  destruct (fetchBatch formatUrl b w) as [rs1 w1|e w1|]; [| |done].
  - destruct Hfetch as (Htr1 & Hss & Hurls1). rewrite run_bind.
    destruct (progress_spec updateProgress (Z.of_nat (length b)) w1) as (out & Hprog).
    assert (all_fulfilled (batch_events formatUrl b ss ++ map EvClient out)) as Hful.
    { apply all_fulfilled_app; [|apply all_fulfilled_client].
      eapply all_fulfilled_responses. rewrite Hss. by apply requests_batch_fulfilled. }
    assert (wire (batch_events formatUrl b ss ++ map EvClient out)
            = batch_wire formatUrl b) as Hwire1.
    { by rewrite wire_app, wire_batch, wire_client, app_nil_r. }
    destruct (progress _ _ w1) as [[] w2|e w2|]; [| |done].
    + specialize (IH (acc ++ rs1) w2).
      destruct (runBatches _ _ bs _ w2) as [rs w'|e w'|]; [| |done].
      * destruct IH as (evs & new & Htr & -> & Hwire & Hreq & Hurls).
        exists ((batch_events formatUrl b ss ++ map EvClient out) ++ evs), (rs1 ++ new).
        split; [by rewrite Htr, Hprog, Htr1, <- !app_assoc|].
        split; [by rewrite app_assoc|].
        split; [by rewrite wire_app, Hwire1, Hwire|].
        split.
        -- rewrite !requests_app, requests_client, app_nil_r, Hss, Hreq, map_app.
           by rewrite requests_batch_fulfilled.
        -- cbn [concat]. by rewrite !map_app, Hurls1, Hurls.
      * destruct IH as (evs & k & Htr & Hk & Hwire & Hcases).
        exists ((batch_events formatUrl b ss ++ map EvClient out) ++ evs), (S k).
        split; [by rewrite Htr, Hprog, Htr1, <- !app_assoc|].
        split; [simpl; lia|].
        split; [by rewrite wire_app, Hwire1, Hwire|].
        destruct Hcases as [[Hall Hthrew]|(e' & pre & n & -> & -> & Hrej)].
        -- left. split; [by apply all_fulfilled_app|done].
        -- right. exists e', ((batch_events formatUrl b ss ++ map EvClient out) ++ pre), n.
           split; [done|]. split; [by rewrite <- !app_assoc|].
           by apply rejected_with_app_r.
    + destruct Hprog as [Hprog Hthrew].
      exists (batch_events formatUrl b ss ++ map EvClient out), 0%nat.
      split; [by rewrite Hprog, Htr1, <- !app_assoc|].
      split; [simpl; lia|].
      split; [cbn; by rewrite app_nil_r|]. by left.
  - destruct Hfetch as (Htr1 & e' & -> & Hin).
    exists (batch_events formatUrl b ss), 0%nat.
    split; [done|]. split; [simpl; lia|].
    split; [cbn; by rewrite app_nil_r, wire_batch|].
    right. exists e', (zip_with (λ url s, EvRequest (format formatUrl url) 10000 s) b ss),
      (length b).
    split; [done|]. split; [done|]. by apply rejected_with_batch.
Qed.

(** *** The fold *)

Lemma reduceM_lift_spec {A} (f : list A → AxiosResponse → C (list A)) rs :
  ∀ acc w, ∃ out,
    match reduceM (λ acc reqResult, lift (f acc reqResult)) rs acc w with
    | Ok _ w' => trace w' = trace w ++ map EvClient out
    | Exn e w' =>
        trace w' = trace w ++ map EvClient out ∧ processData_threw (Supplied f) e
    | OutOfFuel => False
    end.
Proof.
  induction rs as [|r rs IH]; intros acc w.
  { exists []. cbn. by rewrite app_nil_r. }
  cbn [reduceM]. rewrite run_bind. unfold lift at 1.
  destruct (f acc r (fs w)) as [acc' s out|e s out] eqn:Hf.
  - match goal with |- context [reduceM _ rs acc' ?w1] => destruct (IH acc' w1) as [out' Hrest] end.
    exists (out ++ out').
    destruct (reduceM _ rs acc' _) as [? w'|e w'|]; [| |done].
    + by rewrite Hrest, map_app, app_assoc.
    + destruct Hrest as [-> ?]. split; [|done]. by rewrite map_app, app_assoc.
  - exists out. split; [done|]. by exists acc, r, (fs w), s, out.
Qed.

Lemma finish_spec {A} (processData : processData_t A) rs w :
  ∃ out,
    match finish processData rs w with
    | Ok _ w' => trace w' = trace w ++ map EvClient out
    | Exn e w' =>
        trace w' = trace w ++ map EvClient out ∧ processData_threw processData e
    | OutOfFuel => False
    end.
Proof.
  destruct processData as [A f|].
  - apply reduceM_lift_spec.
  - exists []. cbn. by rewrite app_nil_r.
Qed.

(** *** The whole call *)

Lemma makeConcurrentHttpsReqs_chunks {A} fuel urls concurrency
    (processData : processData_t A) updateProgress formatUrl w :
  1 ≤ concurrency → (length urls < fuel)%nat →
  makeConcurrentHttpsReqs fuel urls concurrency processData updateProgress formatUrl w =
  (reqResults ← runBatches updateProgress formatUrl
                  (chunks (Z.to_nat concurrency) urls) [];
   finish processData reqResults) w.
Proof.
  intros Hc Hfuel. destruct fuel as [|n]; [lia|].
  unfold makeConcurrentHttpsReqs. rewrite !run_bind.
  rewrite batchLoop_runBatches by (rewrite ?length_drop; lia).
  change (drop (Z.to_nat 0) urls) with urls.
  rewrite chunks_aux_enough by lia. done.
Qed.

Lemma makeConcurrentHttpsReqs_spec {A} fuel urls concurrency
    (processData : processData_t A) updateProgress formatUrl w :
  1 ≤ concurrency → (length urls < fuel)%nat →
  match makeConcurrentHttpsReqs fuel urls concurrency processData updateProgress
          formatUrl w with
  | Ok acc w' =>
      ∃ evs rs w1 out,
        runBatches updateProgress formatUrl (chunks (Z.to_nat concurrency) urls) [] w
          = Ok rs w1 ∧
        finish processData rs w1 = Ok acc w' ∧
        trace w1 = trace w ++ evs ∧
        trace w' = trace w1 ++ map EvClient out ∧
        wire evs = flat_map (batch_wire formatUrl) (chunks (Z.to_nat concurrency) urls) ∧
        requests evs = map (λ r, (config_url r, 10000, inr (data r))) rs ∧
        map config_url rs = map (format formatUrl) urls
  | Exn e w' =>
      ∃ evs k,
        trace w' = trace w ++ evs ∧
        (k ≤ length (chunks (Z.to_nat concurrency) urls))%nat ∧
        wire evs =
          flat_map (batch_wire formatUrl) (take k (chunks (Z.to_nat concurrency) urls)) ∧
        ((all_fulfilled evs ∧
          (progress_threw updateProgress e ∨ processData_threw processData e)) ∨
         ∃ e' pre n,
           e = AxiosError e' ∧ evs = pre ++ [EvAwaitAll n] ∧ rejected_with e' evs)
  | OutOfFuel => False
  end.
Proof.
  intros Hc Hfuel. rewrite makeConcurrentHttpsReqs_chunks by done. rewrite run_bind.
  pose proof (runBatches_spec updateProgress formatUrl
                (chunks (Z.to_nat concurrency) urls) [] w) as Hrun.
  destruct (runBatches _ _ _ [] w) as [rs w1|e w1|] eqn:Hrb; [| |done].
  - destruct Hrun as (evs & new & Htr & Hrs & Hwire & Hreq & Hurls).
    simpl in Hrs. subst new.
    destruct (finish_spec processData rs w1) as [out Hfin].
    destruct (finish processData rs w1) as [acc w'|e w'|] eqn:Hfinish; [| |done].
    + exists evs, rs, w1, out. split_and!; [done..|].
      rewrite Hurls. unfold chunks. by rewrite chunks_aux_concat by lia.
    + destruct Hfin as [Htr' Hthrew].
      exists (evs ++ map EvClient out), (length (chunks (Z.to_nat concurrency) urls)).
      split; [by rewrite Htr', Htr, app_assoc|]. split; [done|].
      split; [by rewrite wire_app, wire_client, app_nil_r, take_ge|].
      left. split; [|by right].
      apply all_fulfilled_app; [|apply all_fulfilled_client].
      by eapply all_fulfilled_responses.
  - destruct Hrun as (evs & k & Htr & Hk & Hwire & Hcases).
    exists evs, (S k). split; [done|]. split; [lia|]. split; [done|].
    destruct Hcases as [[Hall Hthrew]|Hrej]; [left|by right].
    split; [done|by left].
Qed.

(** *** Progress reports *)

Lemma increments_app evs1 evs2 :
  increments (evs1 ++ evs2) = increments evs1 ++ increments evs2.
Proof. apply omap_app. Qed.

Lemma joins_and_increments_app evs1 evs2 :
  joins_and_increments (evs1 ++ evs2) =
  joins_and_increments evs1 ++ joins_and_increments evs2.
Proof. apply omap_app. Qed.

Lemma increments_of_joins evs :
  increments evs =
  omap (λ x, match x with inr amount => Some amount | inl _ => None end)
    (joins_and_increments evs).
Proof.
  induction evs as [|[u t s|n|[]] evs IH]; cbn; try done. f_equal. apply IH.
Qed.

Lemma joins_and_increments_batch formatUrl b ss :
  joins_and_increments (batch_events formatUrl b ss) = [inl (length b)].
Proof.
  unfold batch_events. rewrite joins_and_increments_app.
  replace (joins_and_increments (zip_with _ b ss)) with (@nil (nat + Z)); [done|].
  revert ss. induction b as [|url b IH]; intros [|s ss]; try done. cbn. apply IH.
Qed.

Lemma increments_batch_progress (bs : list (list string)) :
  omap (λ x : nat + Z, match x with inr amount => Some amount | inl _ => None end)
    (flat_map batch_progress bs)
  = map (λ b, Z.of_nat (length b)) bs.
Proof. induction bs as [|b bs IH]; [done|]. cbn. f_equal. apply IH. Qed.

Lemma runBatches_progress formatUrl bs :
  ∀ reqResults w,
    match runBatches (Some incrementProgBar) formatUrl bs reqResults w with
    | Ok _ w' =>
        ∃ evs, trace w' = trace w ++ evs ∧
               joins_and_increments evs = flat_map batch_progress bs
    | Exn _ w' =>
        ∃ evs k, trace w' = trace w ++ evs ∧ (k < length bs)%nat ∧
                 increments evs = take k (map (λ b, Z.of_nat (length b)) bs)
    | OutOfFuel => False
    end.
Proof.
  induction bs as [|b bs IH]; intros acc w.
  { cbn. exists []. by rewrite app_nil_r. }
  cbn [runBatches]. rewrite run_bind.
  destruct (fetchBatch_spec formatUrl b w) as (ss & Hlen & Hfetch).
  destruct (fetchBatch formatUrl b w) as [rs1 w1|e w1|]; [| |done].
  - destruct Hfetch as (Htr1 & _ & _). rewrite run_bind.
    change (progress (Some incrementProgBar) (Z.of_nat (length b)) w1)
      with (Ok () (emit [EvClient (ProgIncrement (Z.of_nat (length b)))] w1)).
    cbv beta iota.
    specialize (IH (acc ++ rs1)
                  (emit [EvClient (ProgIncrement (Z.of_nat (length b)))] w1)).
    destruct (runBatches _ _ bs _ _) as [rs w'|e w'|]; [| |done].
    + destruct IH as (evs & Htr & Hview).
      exists (batch_events formatUrl b ss
                ++ [EvClient (ProgIncrement (Z.of_nat (length b)))] ++ evs).
      split; [rewrite Htr; cbn [emit trace]; by rewrite Htr1, <- !app_assoc|].
      rewrite !joins_and_increments_app, joins_and_increments_batch, Hview. done.
    + destruct IH as (evs & k & Htr & Hk & Hview).
      exists (batch_events formatUrl b ss
                ++ [EvClient (ProgIncrement (Z.of_nat (length b)))] ++ evs), (S k).
      split; [rewrite Htr; cbn [emit trace]; by rewrite Htr1, <- !app_assoc|].
      split; [simpl; lia|].
      rewrite !increments_app, Hview, (increments_of_joins (batch_events _ _ _)).
      by rewrite joins_and_increments_batch.
  - destruct Hfetch as (Htr1 & _). exists (batch_events formatUrl b ss), 0%nat.
    split; [done|]. split; [simpl; lia|].
    by rewrite increments_of_joins, joins_and_increments_batch.
Qed.

(** *** A concurrency that is not positive *)








(** *** The reduce function of the filter phase *)

Lemma lift_ret {A} (a : A) (w : World) : lift (mret a) w = Ok a w.
Proof. destruct w. unfold lift. cbn. by rewrite app_nil_r. Qed.

Lemma filterCollections_run acc r s :
  filterCollections acc r s =
  COk match accepted (data r) with Some x => acc ++ [x] | None => acc end s [].
Proof.
  unfold filterCollections, accepted.
  by destruct (TextDetailCodec (Some (data r))).
Qed.

Lemma filterCollections_never_throws e :
  ¬ processData_threw (Supplied filterCollections) e.
Proof. intros (acc & r & s & s' & out & Hf). by rewrite filterCollections_run in Hf. Qed.

Lemma reduceM_filterCollections rs :
  ∀ acc w,
    reduceM (λ acc reqResult, lift (filterCollections acc reqResult)) rs acc w =
    Ok (acc ++ omap accepted (map data rs)) w.
Proof.
  induction rs as [|r rs IH]; intros acc w; [cbn; by rewrite app_nil_r|].
  cbn [reduceM]. rewrite run_bind.
  assert (lift (filterCollections acc r) w =
          Ok match accepted (data r) with Some x => acc ++ [x] | None => acc end w) as ->.
  { rewrite <- lift_ret. unfold lift. by rewrite filterCollections_run. }
  rewrite IH. cbn. destruct (accepted (data r)); [by rewrite <- app_assoc|done].
Qed.

End Fetcher.

(** ** The main flow *)

Section MainFlow.
Context `{Platform}.

Lemma lift_clog (e : cevent) (w : World) :
  lift (clog e) w = Ok () (emit [EvClient e] w).
Proof. reflexivity. Qed.

Lemma lift_missing (path : string) (w : World) :
  lift (b ← existsSync path; mret (negb b)) w =
  Ok (negb (fs_exists path (fs w))) (emit [] w).
Proof. reflexivity. Qed.

Lemma emit_emit (evs1 evs2 : list event) (w : World) :
  emit evs2 (emit evs1 w) = emit (evs1 ++ evs2) w.
Proof. unfold emit. cbn. by rewrite app_assoc. Qed.

(** The run up to the decision on the output directory. *)
Lemma main_unfold (fuel : nat) (w : World) :
  main fuel w =
  (_ ← (if negb (fs_exists outputRawPath (fs w)) then populate fuel else mret ());
   lift (clog (Log MsgDone))) (emit [EvClient Clear] w).
Proof.
  unfold main. rewrite run_bind, lift_clog. cbv beta iota.
  rewrite run_bind, lift_missing. cbv beta iota.
  by rewrite emit_emit, app_nil_r.
Qed.

(** *** What a computation adds to the trace *)

Lemma emits_ret {A} (P : list event → Prop) (a : A) : P [] → emits P (mret a).
Proof. intros HP w. exists []. by rewrite app_nil_r. Qed.

Lemma emits_throw {A} (P : list event → Prop) (e : exn) : P [] → emits P (@throw _ A e).
Proof. intros HP w. exists []. by rewrite app_nil_r. Qed.

Lemma emits_mono {A} (P Q : list event → Prop) (m : M A) :
  (∀ evs, P evs → Q evs) → emits P m → emits Q m.
Proof.
  intros HPQ Hm w. specialize (Hm w).
  destruct (m w) as [a w'|e w'|]; [| |done];
    destruct Hm as (evs & Htr & HP); exists evs; auto.
Qed.

Lemma emits_bind {A B} (P Q R : list event → Prop) (m : M A) (k : A → M B) :
  emits P m → (∀ a, emits Q (k a)) →
  (∀ evs, P evs → R evs) →
  (∀ evs1 evs2, P evs1 → Q evs2 → R (evs1 ++ evs2)) →
  emits R (x ← m; k x).
Proof.
  intros Hm Hk HPR HPQR w. rewrite run_bind. specialize (Hm w).
  destruct (m w) as [a w1|e w1|]; [| |done].
  - destruct Hm as (evs1 & Htr1 & HP). specialize (Hk a w1).
    destruct (k a w1) as [b w2|e w2|]; [| |done];
      destruct Hk as (evs2 & Htr2 & HQ); exists (evs1 ++ evs2);
      (split; [by rewrite Htr2, Htr1, app_assoc|by apply HPQR]).
  - destruct Hm as (evs1 & Htr1 & HP). exists evs1. auto.
Qed.

Lemma quiet_client out : quiet (map EvClient out).
Proof. apply requests_client. Qed.

Lemma quiet_ten_seconds evs : quiet evs → ten_seconds evs.
Proof. unfold quiet, ten_seconds. by intros ->. Qed.

Lemma ten_seconds_nil : ten_seconds [].
Proof. constructor. Qed.

Lemma ten_seconds_app evs1 evs2 :
  ten_seconds evs1 → ten_seconds evs2 → ten_seconds (evs1 ++ evs2).
Proof. unfold ten_seconds. rewrite requests_app. apply Forall_app_2. Qed.

Lemma ten_seconds_batch formatUrl b ss : ten_seconds (batch_events formatUrl b ss).
Proof.
  unfold ten_seconds. rewrite requests_batch.
  revert ss. induction b as [|url b IH]; intros [|s ss]; cbn; try done.
  constructor; [done|apply IH].
Qed.

Lemma emits_lift {A} (c : C A) : emits quiet (lift c).
Proof.
  intros w. unfold lift.
  destruct (c (fs w)) as [a s out|e s out]; exists (map EvClient out);
    (split; [done|apply quiet_client]).
Qed.

Lemma emits_Promise_all {A} (ps : list (Promise A)) : emits quiet (Promise_all ps).
Proof.
  intros w. unfold Promise_all.
  destruct (omap rejected ps); by exists [EvAwaitAll (length ps)].
Qed.

Lemma emits_await {A} (p : Promise A) : emits quiet (await p).
Proof. destruct p; [by apply emits_ret|by apply emits_throw]. Qed.

Lemma emits_axios_get url timeout :
  emits (λ evs, ∃ s, requests evs = [(url, timeout, s)]) (axios_get url timeout).
Proof.
  intros w. unfold axios_get. destruct (respond _ _ _) as [s net1].
  exists [EvRequest url timeout s]. split; [done|]. by exists s.
Qed.

Lemma emits_fetchBatch formatUrl b : emits ten_seconds (fetchBatch formatUrl b).
Proof.
  intros w. destruct (fetchBatch_spec formatUrl b w) as (ss & _ & Hfetch).
  destruct (fetchBatch formatUrl b w) as [rs w'|e w'|]; [| |done];
    destruct Hfetch as [Htr _]; exists (batch_events formatUrl b ss);
    (split; [done|apply ten_seconds_batch]).
Qed.

Lemma emits_progress updateProgress amount :
  emits ten_seconds (progress updateProgress amount).
Proof.
  destruct updateProgress as [f|]; cbn [progress].
  - eapply emits_mono; [apply quiet_ten_seconds|apply emits_lift].
  - apply emits_ret, ten_seconds_nil.
Qed.

Lemma emits_bind_ten {A B} (m : M A) (k : A → M B) :
  emits ten_seconds m → (∀ a, emits ten_seconds (k a)) →
  emits ten_seconds (x ← m; k x).
Proof.
  intros Hm Hk. apply (emits_bind ten_seconds ten_seconds); auto using ten_seconds_app.
Qed.

(** Whatever the concurrency and the fuel. *)
Lemma emits_batchLoop fuel urls concurrency updateProgress formatUrl :
  ∀ i reqResults,
    emits ten_seconds
      (batchLoop fuel urls concurrency updateProgress formatUrl i reqResults).
Proof.
  induction fuel as [|fuel IH]; intros i acc; [by intros w|].
  rewrite batchLoop_S. destruct (_ <? _); [|apply emits_ret, ten_seconds_nil].
  apply emits_bind_ten; [apply emits_fetchBatch|]. intros rs.
  apply emits_bind_ten; [apply emits_progress|]. intros _. apply IH.
Qed.

Lemma emits_finish {A} (processData : processData_t A) rs :
  emits ten_seconds (finish processData rs).
Proof.
  intros w. destruct (finish_spec processData rs w) as [out Hfin].
  destruct (finish processData rs w) as [acc w'|e w'|]; [| |done].
  - exists (map EvClient out). split; [done|]. apply quiet_ten_seconds, quiet_client.
  - destruct Hfin as [Htr _]. exists (map EvClient out).
    split; [done|]. apply quiet_ten_seconds, quiet_client.
Qed.

Lemma emits_makeConcurrentHttpsReqs {A} fuel urls concurrency
    (processData : processData_t A) updateProgress formatUrl :
  emits ten_seconds
    (makeConcurrentHttpsReqs fuel urls concurrency processData updateProgress formatUrl).
Proof.
  unfold makeConcurrentHttpsReqs.
  apply emits_bind_ten; [apply emits_batchLoop|]. intros rs. apply emits_finish.
Qed.

Lemma emits_lift_ten {A} (c : C A) : emits ten_seconds (lift c).
Proof. eapply emits_mono; [apply quiet_ten_seconds|apply emits_lift]. Qed.

Lemma list_then_batches_app evs1 evs2 :
  (∃ s, requests evs1 = [(textsUrl, 5000, s)]) → ten_seconds evs2 →
  list_then_batches (evs1 ++ evs2).
Proof.
  intros [s Hs] Hten. exists s, (requests evs2). by rewrite requests_app, Hs.
Qed.

Lemma quiet_app_l (P : list event → Prop) evs1 evs2 :
  quiet evs1 → requests (evs1 ++ evs2) = requests evs2.
Proof. unfold quiet. rewrite requests_app. by intros ->. Qed.

Lemma quiet_app_r evs1 evs2 :
  quiet evs2 → requests (evs1 ++ evs2) = requests evs1.
Proof. unfold quiet. rewrite requests_app. intros ->. apply app_nil_r. Qed.

(** The requests of [populate]: the works list with 5000 ms, then batches
    with 10000 ms. *)
Lemma emits_populate fuel :
  emits (λ evs, quiet evs ∨ list_then_batches evs) (populate fuel).
Proof.
  unfold populate.
  assert (∀ evs1 evs2, quiet evs1 → quiet evs2 ∨ list_then_batches evs2 →
                       quiet (evs1 ++ evs2) ∨ list_then_batches (evs1 ++ evs2))
    as Hprepend.
  { intros evs1 evs2 Hq [Hq2|(s & rest & Hreq & Hrest)].
    - left. unfold quiet in *. by rewrite requests_app, Hq, Hq2.
    - right. exists s, rest. by rewrite (quiet_app_l (λ _, True)). }
  eapply emits_bind; [apply emits_lift| |by left|apply Hprepend]. intros _.
  eapply emits_bind; [apply emits_lift| |by left|apply Hprepend]. intros _.
  eapply (emits_bind _ ten_seconds); [apply emits_axios_get| | |].
  2: { intros evs [s Hs]. right. exists s, []. by rewrite Hs. }
  2: { intros evs1 evs2 Hreq Hten. right. by apply list_then_batches_app. }
  intros p.
  apply emits_bind_ten;
    [eapply emits_mono; [apply quiet_ten_seconds|apply emits_await]|].
  intros response. cbv zeta.
  destruct (TextsDataCodec _) as [errs|textObjs];
    [apply emits_throw, ten_seconds_nil|].
  apply emits_bind_ten; [apply emits_lift_ten|]. intros _.
  apply emits_bind_ten; [apply emits_lift_ten|]. intros _.
  apply emits_bind_ten; [apply emits_makeConcurrentHttpsReqs|]. intros txtUrls.
  apply emits_bind_ten; [apply emits_lift_ten|]. intros _.
  apply emits_bind_ten; [apply emits_lift_ten|]. intros _.
  apply emits_bind_ten; [apply emits_makeConcurrentHttpsReqs|]. intros writes.
  apply emits_bind_ten;
    [eapply emits_mono; [apply quiet_ten_seconds|apply emits_Promise_all]|].
  intros _. apply emits_ret, ten_seconds_nil.
Qed.

Lemma emits_main fuel :
  emits (λ evs, quiet evs ∨ list_then_batches evs) (main fuel).
Proof.
  assert (∀ evs1 evs2, quiet evs1 → quiet evs2 ∨ list_then_batches evs2 →
                       quiet (evs1 ++ evs2) ∨ list_then_batches (evs1 ++ evs2))
    as Hprepend.
  { intros evs1 evs2 Hq [Hq2|(s & rest & Hreq & Hrest)].
    - left. unfold quiet in *. by rewrite requests_app, Hq, Hq2.
    - right. exists s, rest. by rewrite (quiet_app_l (λ _, True)). }
  unfold main.
  eapply emits_bind; [apply emits_lift| |by left|apply Hprepend]. intros _.
  eapply emits_bind; [apply emits_lift| |by left|apply Hprepend]. intros missing.
  eapply (emits_bind (λ evs, quiet evs ∨ list_then_batches evs) quiet).
  - destruct missing; [apply emits_populate|]. apply emits_ret. by left.
  - intros _. apply emits_lift.
  - done.
  - intros evs1 evs2 [Hq1|(s & rest & Hreq & Hrest)] Hq2.
    + left. unfold quiet in *. by rewrite requests_app, Hq1, Hq2.
    + right. exists s, rest. by rewrite quiet_app_r.
Qed.

End MainFlow.

(** ** Claims about the fetcher *)

(** The URLs of the requests of a traffic view. *)
Lemma requests_urls_wire (evs : list event) :
  map (λ x, x.1.1) (requests evs) =
  omap (λ x, match x with inl (u, _) => Some u | inr _ => None end) (wire evs).
Proof.
  induction evs as [|[u t s|n|c] evs IH]; cbn; [done| |done..].
  f_equal. apply IH.
Qed.

Lemma batch_wire_urls formatUrl (bs : list (list string)) :
  omap (λ x : string * Z + nat, match x with inl (u, _) => Some u | inr _ => None end)
    (flat_map (batch_wire formatUrl) bs)
  = map (format formatUrl) (concat bs).
Proof.
  induction bs as [|b bs IH]; [done|].
  cbn [flat_map concat]. rewrite omap_app, map_app, IH. f_equal.
  unfold batch_wire. rewrite omap_app. cbn. rewrite app_nil_r.
  induction b as [|url b IHb]; [done|]. cbn. f_equal. apply IHb.
Qed.

Lemma responses_zip formatUrl (urls : list string) :
  ∀ rs : list AxiosResponse,
    map config_url rs = map (format formatUrl) urls →
    map (λ r, (config_url r, 10000, inr (data r))) rs =
    zip_with (λ url body, (format formatUrl url, 10000, @inr axios_error json body))
      urls (map data rs).
Proof.
  induction urls as [|url urls IH]; intros [|r rs] Hurls; try done.
  injection Hurls as Hurl Hurls. cbn. rewrite Hurl. f_equal. by apply IH.
Qed.

(** *** How a call throws *)

Lemma take_lookup_snoc {A} (l : list A) (k : nat) (x : A) :
  l !! k = Some x → take (S k) l = take k l ++ [x].
Proof. intros Hk. by apply take_S_r. Qed.

Lemma all_fulfilled_batch formatUrl b (rs : list AxiosResponse) :
  map config_url rs = map (format formatUrl) b →
  all_fulfilled (batch_events formatUrl b (map (λ r, inr (data r)) rs)).
Proof.
  intros Hurls. eapply all_fulfilled_responses. by apply requests_batch_fulfilled.
Qed.

(** A run over batches that throws stopped in a batch [b], the [k]-th:
    the batches before it were fetched, joined and reported with every
    request fulfilled; then either a request of [b] was rejected, and the
    join of [b] is the last event, or the requests of [b] were fulfilled and
    the progress callback threw. *)
Lemma runBatches_thrown `{Platform} updateProgress formatUrl bs :
  ∀ reqResults w e w',
    runBatches updateProgress formatUrl bs reqResults w = Exn e w' →
    ∃ k b pre ss,
      bs !! k = Some b ∧ length ss = length b ∧ all_fulfilled pre ∧
      wire pre = flat_map (batch_wire formatUrl) (take k bs) ∧
      ((∃ e', e = AxiosError e' ∧ inl e' ∈ ss ∧
              trace w' = trace w ++ pre ++ batch_events formatUrl b ss) ∨
       (∃ out, progress_threw updateProgress e ∧
               all_fulfilled (batch_events formatUrl b ss) ∧
               trace w' =
                 trace w ++ pre ++ batch_events formatUrl b ss ++ map EvClient out)).
Proof.
  induction bs as [|b bs IH]; intros acc w e w' Hrun; [done|].
  cbn [runBatches] in Hrun. rewrite run_bind in Hrun.
  destruct (fetchBatch_spec formatUrl b w) as (ss & Hlen & Hfetch).
  destruct (fetchBatch formatUrl b w) as [rs1 w1|e1 w1|]; [| |done].
  - destruct Hfetch as (Htr1 & Hss & Hurls1). rewrite run_bind in Hrun.
    destruct (progress_spec updateProgress (Z.of_nat (length b)) w1) as (out & Hprog).
    assert (all_fulfilled (batch_events formatUrl b ss)) as Hful
      by (rewrite Hss; by apply all_fulfilled_batch).
    destruct (progress _ _ w1) as [[] w2|e2 w2|]; [| |done].
    + destruct (IH _ _ _ _ Hrun) as (k & b' & pre & ss' & Hb' & Hlen' & Hpre & Hwire & Hcases).
      exists (S k), b', (batch_events formatUrl b ss ++ map EvClient out ++ pre), ss'.
      split; [done|]. split; [done|].
      split.
      { apply all_fulfilled_app; [done|].
        apply all_fulfilled_app; [apply all_fulfilled_client|done]. }
      split.
      { cbn [take flat_map]. rewrite !wire_app, wire_batch, wire_client, Hwire by done.
        done. }
      destruct Hcases as [(e' & -> & Hin & Htr)|(out' & Hthrew & Hful' & Htr)].
      * left. exists e'. split; [done|]. split; [done|].
        by rewrite Htr, Hprog, Htr1, <- !app_assoc.
      * right. exists out'. split; [done|]. split; [done|].
        by rewrite Htr, Hprog, Htr1, <- !app_assoc.
    + injection Hrun as -> ->. destruct Hprog as [Hprog Hthrew].
      exists 0%nat, b, [], ss. split; [done|]. split; [done|].
      split; [by apply Forall_nil|]. split; [done|].
      right. exists out. split; [done|]. split; [done|].
      by rewrite Hprog, Htr1, <- !app_assoc.
  - injection Hrun as -> ->. destruct Hfetch as (Htr1 & e' & -> & Hin).
    exists 0%nat, b, [], ss. split; [done|]. split; [done|].
    split; [by apply Forall_nil|]. split; [done|].
    left. by exists e'.
Qed.

(** A call that throws: a request of the [k]-th batch was rejected, and
    the join of that batch is the last event; or the progress callback threw
    after the [k]-th batch; or the reduce function threw after all the
    batches. *)
Lemma makeConcurrentHttpsReqs_thrown `{Platform} {A} fuel urls concurrency
    (processData : processData_t A) updateProgress formatUrl w e w' :
  1 ≤ concurrency → (length urls < fuel)%nat →
  makeConcurrentHttpsReqs fuel urls concurrency processData updateProgress formatUrl w
    = Exn e w' →
  ∃ evs,
    trace w' = trace w ++ evs ∧
    ((∃ k b pre ss e',
        chunks (Z.to_nat concurrency) urls !! k = Some b ∧
        evs = pre ++ batch_events formatUrl b ss ∧
        all_fulfilled pre ∧
        wire pre =
          flat_map (batch_wire formatUrl) (take k (chunks (Z.to_nat concurrency) urls)) ∧
        length ss = length b ∧ inl e' ∈ ss ∧ e = AxiosError e') ∨
     (∃ k, all_fulfilled evs ∧ progress_threw updateProgress e ∧
           (k < length (chunks (Z.to_nat concurrency) urls))%nat ∧
           wire evs =
             flat_map (batch_wire formatUrl)
               (take (S k) (chunks (Z.to_nat concurrency) urls))) ∨
     (all_fulfilled evs ∧ processData_threw processData e ∧
      wire evs = flat_map (batch_wire formatUrl) (chunks (Z.to_nat concurrency) urls))).
Proof.
  intros Hc Hfuel. rewrite makeConcurrentHttpsReqs_chunks by done. rewrite run_bind.
  pose proof (runBatches_spec updateProgress formatUrl
                (chunks (Z.to_nat concurrency) urls) [] w) as Hrun.
  destruct (runBatches _ _ _ [] w) as [rs w1|e1 w1|] eqn:Hrb; [| |done].
  - destruct Hrun as (evs & new & Htr & Hrs & Hwire & Hreq & Hurls).
    destruct (finish_spec processData rs w1) as [out Hfin]. intros Hfinish.
    rewrite Hfinish in Hfin. destruct Hfin as [Htr' Hthrew].
    exists (evs ++ map EvClient out). split; [by rewrite Htr', Htr, app_assoc|].
    right. right. split; [|split; [done|]].
    + apply all_fulfilled_app; [|apply all_fulfilled_client].
      by eapply all_fulfilled_responses.
    + by rewrite wire_app, wire_client, app_nil_r.
  - clear Hrun. intros [= -> ->].
    destruct (runBatches_thrown _ _ _ _ _ _ _ Hrb)
      as (k & b & pre & ss & Hb & Hlen & Hpre & Hwire & Hcases).
    destruct Hcases as [(e' & -> & Hin & Htr)|(out & Hthrew & Hful & Htr)].
    + exists (pre ++ batch_events formatUrl b ss). split; [done|].
      left. by exists k, b, pre, ss, e'.
    + exists (pre ++ batch_events formatUrl b ss ++ map EvClient out). split; [done|].
      right. left. exists k. split; [|split; [done|split]].
      * apply all_fulfilled_app; [done|].
        apply all_fulfilled_app; [done|apply all_fulfilled_client].
      * by apply lookup_lt_Some in Hb.
      * rewrite (take_lookup_snoc _ _ _ Hb), flat_map_app, !wire_app, wire_batch,
          wire_client, Hwire by done.
        cbn [flat_map]. by rewrite !app_nil_r.
Qed.

(** C1. For every target list and every [concurrency >= 1],
    [makeConcurrentHttpsReqs] cuts the list into consecutive batches [bs]
    (the [chunks] of the list): their concatenation is the list, their number is the ceiling of
    [length / concurrency], every batch has between 1 and [concurrency]
    targets and every batch but the last exactly [concurrency]. With enough
    fuel the call is the program that takes the batches of [bs] one after
    the other and then folds, and it settles. Its traffic is made of the
    batches of [bs] in order, each one as one request per target followed by
    one join: all of them, with every request fulfilled, when the call
    returns; the first [k] of them when it throws, which it does only when a
    request was rejected or a callback threw, and then [k] is at least 1 for
    a list that is not empty. For an empty list there is no batch, and the
    call returns the empty accumulator at once, leaving the world as it
    was. *)
Theorem batch_partition `{Platform} (urls : list string) (concurrency : Z) :
  1 ≤ concurrency →
  ∃ bs : list (list string),
    bs = chunks (Z.to_nat concurrency) urls ∧
    concat bs = urls ∧
    Z.of_nat (length bs) = (Z.of_nat (length urls) + concurrency - 1) / concurrency ∧
    concurrency * (Z.of_nat (length bs) - 1) < Z.of_nat (length urls)
      ≤ concurrency * Z.of_nat (length bs) ∧
    (∀ k b, bs !! k = Some b →
       1 ≤ Z.of_nat (length b) ≤ concurrency ∧
       ((S k < length bs)%nat → Z.of_nat (length b) = concurrency)) ∧
    (∀ A (processData : processData_t A) updateProgress formatUrl fuel w,
       (length urls < fuel)%nat →
       makeConcurrentHttpsReqs fuel urls concurrency processData
         updateProgress formatUrl w =
       (reqResults ← runBatches updateProgress formatUrl bs [];
        finish processData reqResults) w ∧
       match makeConcurrentHttpsReqs fuel urls concurrency processData
               updateProgress formatUrl w with
       | Ok _ w' =>
           ∃ evs, trace w' = trace w ++ evs ∧
                  all_fulfilled evs ∧
                  wire evs = flat_map (batch_wire formatUrl) bs
       | Exn e w' =>
           ∃ evs k, trace w' = trace w ++ evs ∧ (k ≤ length bs)%nat ∧
                    (urls ≠ [] → (1 ≤ k)%nat) ∧
                    wire evs = flat_map (batch_wire formatUrl) (take k bs) ∧
                    ((∃ e', e = AxiosError e' ∧ rejected_with e' evs) ∨
                     (all_fulfilled evs ∧ progress_threw updateProgress e) ∨
                     (all_fulfilled evs ∧ processData_threw processData e ∧
                      k = length bs))
       | OutOfFuel => False
       end) ∧
    (urls = [] →
     bs = [] ∧
     ∀ A (processData : processData_t A) updateProgress formatUrl fuel w,
       makeConcurrentHttpsReqs (S fuel) urls concurrency processData
         updateProgress formatUrl w = Ok [] w).
Proof.
  intros Hc. exists (chunks (Z.to_nat concurrency) urls).
  assert (Z.of_nat (length (chunks (Z.to_nat concurrency) urls)) =
          (Z.of_nat (length urls) + concurrency - 1) / concurrency) as Hcount.
  { unfold chunks. rewrite chunks_aux_count by lia. by rewrite Z2Nat.id by lia. }
  assert (concat (chunks (Z.to_nat concurrency) urls) = urls) as Hconcat.
  { unfold chunks. apply chunks_aux_concat; lia. }
  split_and!.
  - done.
  - done.
  - done.
  - rewrite Hcount.
    pose proof (Z.mul_div_le (Z.of_nat (length urls) + concurrency - 1) concurrency).
    lia.
  - rewrite Hcount.
    pose proof (Z.mul_succ_div_gt (Z.of_nat (length urls) + concurrency - 1) concurrency).
    lia.
  - intros k b Hb.
    assert (1 ≤ Z.to_nat concurrency)%nat as Hs by lia.
    destruct (chunks_aux_sizes _ _ _ _ _ Hs Hb) as [Hsize Hfull].
    split; [lia|]. intros Hk. specialize (Hfull Hk). lia.
  - intros A processData updateProgress formatUrl fuel w Hfuel.
    split; [by apply makeConcurrentHttpsReqs_chunks|].
    pose proof (makeConcurrentHttpsReqs_spec fuel urls concurrency processData
                  updateProgress formatUrl w Hc Hfuel) as Hspec.
    destruct (makeConcurrentHttpsReqs _ _ _ _ _ _ w) as [acc w'|e w'|] eqn:Hcall;
      [| |done].
    + destruct Hspec as (evs & rs & w1 & out & _ & _ & Htr & Htr' & Hwire & Hreq & _).
      exists (evs ++ map EvClient out). split; [by rewrite Htr', Htr, app_assoc|].
      split.
      * apply all_fulfilled_app; [|apply all_fulfilled_client].
        by eapply all_fulfilled_responses.
      * by rewrite wire_app, wire_client, app_nil_r.
    + clear Hspec.
      destruct (makeConcurrentHttpsReqs_thrown _ _ _ _ _ _ _ _ _ Hc Hfuel Hcall)
        as (evs & Htr & Hcases).
      exists evs.
      destruct Hcases as [(k & b & pre & ss & e' & Hb & -> & Hpre & Hwire & Hlen & Hin
                           & ->)
                         |[(k & Hall & Hthrew & Hk & Hwire)|(Hall & Hthrew & Hwire)]].
      * exists (S k). split; [done|].
        split; [apply lookup_lt_Some in Hb; lia|]. split; [lia|].
        split.
        { rewrite (take_lookup_snoc _ _ _ Hb), flat_map_app, wire_app, wire_batch,
            Hwire by done.
          cbn [flat_map]. by rewrite app_nil_r. }
        left. exists e'. split; [done|].
        apply rejected_with_app_r. by apply rejected_with_batch.
      * exists (S k). split; [done|]. split; [lia|]. split; [lia|].
        split; [done|]. right. by left.
      * exists (length (chunks (Z.to_nat concurrency) urls)).
        split; [done|]. split; [done|]. split.
        { intros Hne. destruct (chunks (Z.to_nat concurrency) urls); [|simpl; lia].
          by destruct Hne. }
        split; [by rewrite take_ge|]. right. by right.
  - intros ->. split; [done|]. intros A processData updateProgress formatUrl fuel w.
    unfold makeConcurrentHttpsReqs. rewrite run_bind, batchLoop_S. cbn.
    destruct processData; done.
Qed.

(** Three targets fetched two at a time: the call makes the batches
    [a, b] and [c], and returns after the second join. *)
Lemma batch_partition_witness :
  1 ≤ 2 ∧
  ∃ bs : list (list string),
    bs = [["a"; "b"]; ["c"]] ∧ concat bs = ["a"; "b"; "c"] ∧ Z.of_nat (length bs) = 2 ∧
    ∃ w',
      makeConcurrentHttpsReqs 4 ["a"; "b"; "c"] 2 (@Omitted (scripted echo)) None None
        (fresh echo) = Ok [JStr "a"; JStr "b"; JStr "c"] w' ∧
      wire (trace w') =
        [inl ("a", 10000); inl ("b", 10000); inr 2%nat; inl ("c", 10000); inr 1%nat].
Proof.
  split; [lia|].
  destruct (batch_partition (H := scripted echo) ["a"; "b"; "c"] 2 ltac:(lia))
    as (bs & Hbs & Hconcat & Hcount & _ & _ & Hcall & _).
  exists bs. split; [exact Hbs|]. split; [exact Hconcat|]. split; [exact Hcount|].
  destruct (Hcall json Omitted None None 4%nat (fresh echo) ltac:(simpl; lia))
    as [_ Hrun].
  assert (match makeConcurrentHttpsReqs 4 ["a"; "b"; "c"] 2 (@Omitted (scripted echo))
                  None None (fresh echo) with
          | Ok acc _ => acc
          | _ => []
          end = [JStr "a"; JStr "b"; JStr "c"]) as Hacc by (vm_compute; reflexivity).
  destruct (makeConcurrentHttpsReqs 4 ["a"; "b"; "c"] 2 Omitted None None (fresh echo))
    as [acc w'|e w'|]; [|discriminate Hacc..].
  destruct Hrun as (evs & Htr & _ & Hwire). exists w'.
  split; [by rewrite <- Hacc|].
  change (trace (fresh echo)) with (@nil event) in Htr. rewrite app_nil_l in Htr.
  rewrite Htr, Hwire, Hbs. reflexivity.
Defined.

(** C2. Called without [processData], with [concurrency >= 1] and enough
    fuel, [makeConcurrentHttpsReqs] settles. When it returns, the accumulator
    has one element per target, and the requests of the call are, in the
    order of the targets, one request per target (to the formatted URL), each
    fulfilled with the body found at the same position of the accumulator.
    When it throws, a request was rejected or the progress callback threw. *)
Theorem pass_through_fold `{Platform} (urls : list string) (concurrency : Z)
    updateProgress formatUrl (fuel : nat) (w : World) :
  1 ≤ concurrency → (length urls < fuel)%nat →
  match makeConcurrentHttpsReqs fuel urls concurrency Omitted updateProgress formatUrl w with
  | Ok acc w' =>
      ∃ evs,
        trace w' = trace w ++ evs ∧
        length acc = length urls ∧
        requests evs =
          zip_with (λ url body, (format formatUrl url, 10000, inr body)) urls acc
  | Exn e w' =>
      ∃ evs,
        trace w' = trace w ++ evs ∧
        ((∃ e', e = AxiosError e' ∧ rejected_with e' evs) ∨
         progress_threw updateProgress e)
  | OutOfFuel => False
  end.
Proof.
  intros Hc Hfuel.
  pose proof (makeConcurrentHttpsReqs_spec fuel urls concurrency Omitted
                updateProgress formatUrl w Hc Hfuel) as Hspec.
  destruct (makeConcurrentHttpsReqs _ _ _ _ _ _ w) as [acc w'|e w'|]; [| |done].
  - destruct Hspec as (evs & rs & w1 & out & _ & Hfin & Htr & Htr' & _ & Hreq & Hurls).
    cbn in Hfin. injection Hfin as <- <-.
    exists evs. split; [done|]. split.
    + rewrite length_map. apply (f_equal length) in Hurls. by rewrite !length_map in Hurls.
    + rewrite Hreq. by apply responses_zip.
  - destruct Hspec as (evs & k & Htr & _ & _ & Hcases). exists evs. split; [done|].
    destruct Hcases as [[_ [Hthrew|[]]]|(e' & pre & n & -> & _ & Hrej)].
    + by right.
    + left. by exists e'.
Qed.

(** Against the echoing service the bodies come back in the order of the
    targets. *)
Lemma pass_through_fold_witness :
  1 ≤ 2 ∧ (length ["a"; "b"; "c"] < 4)%nat ∧
  ∃ w', makeConcurrentHttpsReqs 4 ["a"; "b"; "c"] 2 Omitted None None (fresh echo)
        = Ok [JStr "a"; JStr "b"; JStr "c"] w'.
Proof.
  split; [lia|]. split; [simpl; lia|].
  pose proof (pass_through_fold (H := scripted echo) ["a"; "b"; "c"] 2 None None 4
                (fresh echo) ltac:(lia) ltac:(simpl; lia)) as Hrun.
  destruct (makeConcurrentHttpsReqs 4 ["a"; "b"; "c"] 2 Omitted None None (fresh echo))
    as [acc w'|e w'|] eqn:Hcall; vm_compute in Hcall; [|discriminate..].
  exists w'. by injection Hcall as <- <-.
Defined.

(** C4. With [concurrency >= 1] and enough fuel the call settles in a world
    [w'], having issued at most one request per target, in the order of the
    targets. If any of its requests was rejected, then: the call throws the
    error of a rejected request, so it returns no accumulator; the rejected
    requests all belong to one batch [b], the [k]-th of the batches of the
    list, and the error thrown is one of theirs; every request of the
    batches before [b] was fulfilled; the requests and the join of [b] are
    the last events of the call, so that no batch is fetched after [b], no
    request is repeated and no callback is run: the requests issued are
    those of the first [k + 1] batches, once each. *)
Theorem failure_atomicity `{Platform} {A} (urls : list string) (concurrency : Z)
    (processData : processData_t A) updateProgress formatUrl (fuel : nat) (w : World) :
  1 ≤ concurrency → (length urls < fuel)%nat →
  let bs := chunks (Z.to_nat concurrency) urls in
  ∃ w' evs,
    trace w' = trace w ++ evs ∧
    ((∃ acc, makeConcurrentHttpsReqs fuel urls concurrency processData
               updateProgress formatUrl w = Ok acc w') ∨
     (∃ e, makeConcurrentHttpsReqs fuel urls concurrency processData
             updateProgress formatUrl w = Exn e w')) ∧
    map (λ x, x.1.1) (requests evs) `prefix_of` map (format formatUrl) urls ∧
    (∀ e0, rejected_with e0 evs →
       ∃ e k b pre ss,
         makeConcurrentHttpsReqs fuel urls concurrency processData
           updateProgress formatUrl w = Exn (AxiosError e) w' ∧
         bs !! k = Some b ∧
         evs = pre ++ batch_events formatUrl b ss ∧
         length ss = length b ∧
         inl e ∈ ss ∧ inl e0 ∈ ss ∧
         all_fulfilled pre ∧
         wire pre = flat_map (batch_wire formatUrl) (take k bs) ∧
         map (λ x, x.1.1) (requests evs) =
           map (format formatUrl) (concat (take (S k) bs))).
Proof.
  intros Hc Hfuel bs.
  pose proof (makeConcurrentHttpsReqs_spec fuel urls concurrency processData
                updateProgress formatUrl w Hc Hfuel) as Hspec.
  assert (∀ k, map (format formatUrl) (concat (take k bs))
               `prefix_of` map (format formatUrl) urls) as Hprefix.
  { intros k.
    replace (map (format formatUrl) urls) with (map (format formatUrl) (concat bs))
      by (f_equal; apply chunks_aux_concat; lia).
    rewrite <- (take_drop k bs) at 2.
    rewrite concat_app, map_app. by apply prefix_app_r. }
  destruct (makeConcurrentHttpsReqs _ _ _ _ _ _ w) as [acc w'|e w'|] eqn:Hcall;
    [| |done].
  - destruct Hspec as (evs & rs & w1 & out & _ & _ & Htr & Htr' & Hwire & Hreq & Hurls).
    assert (all_fulfilled (evs ++ map EvClient out)) as Hall.
    { apply all_fulfilled_app; [|apply all_fulfilled_client].
      by eapply all_fulfilled_responses. }
    exists w', (evs ++ map EvClient out).
    split; [by rewrite Htr', Htr, app_assoc|]. split; [left; by exists acc|]. split.
    + rewrite requests_app, requests_client, app_nil_r, Hreq, map_map, <- Hurls.
      reflexivity.
    + intros e0 Hrej. by destruct (all_fulfilled_not_rejected _ e0 Hall).
  - clear Hspec.
    destruct (makeConcurrentHttpsReqs_thrown _ _ _ _ _ _ _ _ _ Hc Hfuel Hcall)
      as (evs & Htr & Hcases).
    fold bs in Hcases. exists w', evs. split; [done|]. split; [right; by exists e|].
    destruct Hcases as [(k & b & pre & ss & e' & Hb & -> & Hpre & Hwire & Hlen & Hin
                         & ->)
                       |[(k & Hall & _ & _ & Hwire)|(Hall & _ & Hwire)]].
    + assert (map (λ x, x.1.1) (requests (pre ++ batch_events formatUrl b ss)) =
              map (format formatUrl) (concat (take (S k) bs))) as Hurls.
      { rewrite requests_urls_wire, wire_app, wire_batch, Hwire by done.
        rewrite (take_lookup_snoc _ _ _ Hb), <- batch_wire_urls, flat_map_app.
        cbn [flat_map]. by rewrite app_nil_r. }
      split; [rewrite Hurls; apply Hprefix|].
      intros e0 Hrej0. exists e', k, b, pre, ss. split_and!; try done.
      destruct Hrej0 as (url & timeout & Hin0).
      rewrite requests_app in Hin0. apply elem_of_app in Hin0 as [Hin0|Hin0].
      * by destruct (proj1 (Forall_forall _ _) Hpre _ Hin0) as [body ?].
      * rewrite requests_batch in Hin0.
        apply elem_of_lookup_zip_with in Hin0 as (i & u & s & Heq & _ & Hs).
        injection Heq as _ _ <-. by eapply list_elem_of_lookup_2.
    + split.
      * rewrite requests_urls_wire, Hwire, batch_wire_urls. apply Hprefix.
      * intros e0 Hrej0. by destruct (all_fulfilled_not_rejected _ e0 Hall).
    + split.
      * rewrite requests_urls_wire, Hwire, batch_wire_urls.
        rewrite <- (take_ge bs (length bs)) by done. apply Hprefix.
      * intros e0 Hrej0. by destruct (all_fulfilled_not_rejected _ e0 Hall).
Qed.

(** The second of three targets fetched one at a time is rejected: the
    call throws after the join of the second batch, and the third target is
    never requested. *)
Lemma failure_atomicity_witness :
  1 ≤ 1 ∧ (length ["a"; "b"; "c"] < 4)%nat ∧
  ∃ w', makeConcurrentHttpsReqs 4 ["a"; "b"; "c"] 1 (@Omitted (scripted without_b))
          None None (fresh without_b)
        = Exn (AxiosError NetworkError) w' ∧
        wire (trace w') =
          [inl ("a", 10000); inr 1%nat; inl ("b", 10000); inr 1%nat] ∧
        ∃ k b pre ss,
          [["a"]; ["b"]; ["c"]] !! k = Some b ∧
          trace w' = pre ++ batch_events None b ss ∧
          inl NetworkError ∈ ss ∧ all_fulfilled pre.
Proof.
  split; [lia|]. split; [simpl; lia|].
  assert (match makeConcurrentHttpsReqs 4 ["a"; "b"; "c"] 1
                  (@Omitted (scripted without_b)) None None (fresh without_b) with
          | Exn e w => Some (e, trace w)
          | _ => None
          end
          = Some (AxiosError NetworkError,
                  [EvRequest "a" 10000 (inr (JStr "a")); EvAwaitAll 1;
                   EvRequest "b" 10000 (inl NetworkError); EvAwaitAll 1]))
    as Hres by (vm_compute; reflexivity).
  destruct (failure_atomicity (H := scripted without_b) ["a"; "b"; "c"] 1 Omitted
              None None 4 (fresh without_b) ltac:(lia) ltac:(simpl; lia))
    as (w' & evs & Htr & Hsettle & _ & Hrej).
  change (trace (fresh without_b)) with (@nil event) in Htr. rewrite app_nil_l in Htr.
  destruct Hsettle as [[acc Hcall]|[e Hcall]]; rewrite Hcall in Hres;
    [discriminate Hres|].
  injection Hres as -> Hw'. exists w'. split; [exact Hcall|].
  split; [rewrite Hw'; reflexivity|].
  assert (rejected_with NetworkError evs) as Hb.
  { exists "b", 10000. rewrite <- Htr, Hw'. cbn.
    apply elem_of_cons. right. apply elem_of_cons. by left. }
  destruct (Hrej _ Hb)
    as (e & k & b & pre & ss & _ & Hk & Hevs & _ & _ & Hin & Hpre & _).
  exists k, b, pre, ss. split; [exact Hk|]. split; [by rewrite Htr|]. by split.
Defined.

Lemma length_concat_sum (bs : list (list string)) :
  foldr Z.add 0 (map (λ b, Z.of_nat (length b)) bs) = Z.of_nat (length (concat bs)).
Proof.
  induction bs as [|b bs IH]; [done|].
  cbn [map foldr concat]. rewrite IH, length_app. lia.
Qed.

(** C6. Let [bs] be the batches of the target list for a
    [concurrency >= 1]. The amounts [length b] of the batches sum to the
    number of targets. A call with a progress callback is the program that
    takes the batches in order and, for each one, issues and joins its
    requests and then calls the callback once with [length b], before it
    folds the responses. With the progress-bar callback of the main flow:
    when the loop completes, the joins and the progress reports alternate,
    one report of [length b] right after the join of each batch [b]; when a
    request of batch [k] is rejected, only the [k] batches before it were
    reported. Five targets fetched two at a time make the batches of 2, 2
    and 1 targets, reported as 2, 2, 1. *)
Theorem progress_reporting `{Platform} (urls : list string) (concurrency : Z) :
  1 ≤ concurrency →
  let bs := chunks (Z.to_nat concurrency) urls in
  let amounts := map (λ b, Z.of_nat (length b)) bs in
  foldr Z.add 0 amounts = Z.of_nat (length urls) ∧
  (∀ A (processData : processData_t A) updateProgress formatUrl fuel w,
     (length urls < fuel)%nat →
     makeConcurrentHttpsReqs fuel urls concurrency processData (Some updateProgress)
       formatUrl w =
     (reqResults ← runBatches (Some updateProgress) formatUrl bs [];
      finish processData reqResults) w) ∧
  (∀ A (processData : processData_t A) formatUrl fuel w,
     (length urls < fuel)%nat →
     match makeConcurrentHttpsReqs fuel urls concurrency processData
             (Some incrementProgBar) formatUrl w with
     | Ok acc w' =>
         ∃ rs w1 evs,
           trace w1 = trace w ++ evs ∧
           finish processData rs w1 = Ok acc w' ∧
           joins_and_increments evs = flat_map batch_progress bs ∧
           increments evs = amounts
     | Exn e w' =>
         (∃ evs k, trace w' = trace w ++ evs ∧ (k < length bs)%nat ∧
                   increments evs = take k amounts) ∨
         (∃ rs w1 evs, trace w1 = trace w ++ evs ∧
                       finish processData rs w1 = Exn e w' ∧
                       increments evs = amounts)
     | OutOfFuel => False
     end) ∧
  (∀ a b c d e, urls = [a; b; c; d; e] → concurrency = 2 →
     bs = [[a; b]; [c; d]; [e]] ∧ amounts = [2; 2; 1]).
Proof.
  intros Hc bs amounts. split_and!.
  - unfold amounts, bs, chunks. rewrite length_concat_sum.
    by rewrite chunks_aux_concat by lia.
  - intros A processData updateProgress formatUrl fuel w Hfuel.
    by apply makeConcurrentHttpsReqs_chunks.
  - intros A processData formatUrl fuel w Hfuel.
    rewrite makeConcurrentHttpsReqs_chunks by done. rewrite run_bind. fold bs.
    pose proof (runBatches_progress formatUrl bs [] w) as Hrun.
    destruct (runBatches _ _ bs [] w) as [rs w1|e w1|]; [| |done].
    + destruct Hrun as (evs & Htr & Hview).
      assert (increments evs = amounts) as Hincr.
      { by rewrite increments_of_joins, Hview, increments_batch_progress. }
      pose proof (finish_spec processData rs w1) as [out Hfin].
      destruct (finish processData rs w1) as [acc w'|e w'|] eqn:Hfinish; [| |done].
      * by exists rs, w1, evs.
      * right. by exists rs, w1, evs.
    + left. destruct Hrun as (evs & k & Htr & Hk & Hview). by exists evs, k.
  - intros a b c d e Hurls ->. unfold amounts, bs. by rewrite Hurls.
Qed.

(** Five targets, two at a time, against the echoing service. *)
Lemma progress_reporting_witness :
  1 ≤ 2 ∧
  ∃ acc w',
    makeConcurrentHttpsReqs 6 ["a"; "b"; "c"; "d"; "e"] 2 (@Omitted (scripted echo))
      (Some incrementProgBar) None (fresh echo) = Ok acc w' ∧
    increments (trace w') = [2; 2; 1].
Proof.
  split; [lia|].
  destruct (progress_reporting (H := scripted echo) ["a"; "b"; "c"; "d"; "e"] 2
              ltac:(lia)) as (_ & _ & Hrun & _).
  specialize (Hrun json Omitted None 6%nat (fresh echo) ltac:(simpl; lia)).
  destruct (makeConcurrentHttpsReqs 6 ["a"; "b"; "c"; "d"; "e"] 2 Omitted
              (Some incrementProgBar) None (fresh echo)) as [acc w'|e w'|] eqn:Hcall;
    [|vm_compute in Hcall; discriminate Hcall|destruct Hrun].
  exists acc, w'. split; [done|].
  destruct Hrun as (rs & w1 & evs & Htr & Hfin & _ & Hincr).
  cbn in Hfin. injection Hfin as _ <-. by rewrite Htr.
Defined.




(** ** Claims about the codecs and the filter phase *)

Lemma length_omap_le {A B} (f : A → option B) (xs : list A) :
  (length (omap f xs) ≤ length xs)%nat.
Proof. induction xs as [|x xs IH]; cbn; [done|]. destruct (f x); cbn; lia. Qed.

(** C3. A body passes [TextDetailCodec] exactly when it is an object whose
    [language] is the configured literal, whose [children] is an empty array
    and whose [txt] is a string; the decoded value then carries that [txt]
    unchanged. A body without [txt], with a non-empty [children] or with
    another [language] is rejected. Folding the filter's reduce function over
    any list of responses returns the [txt] of the accepted bodies, in the
    order of the responses, and nothing else; so does the whole call, whose
    accumulator is never longer than the target list. *)
Theorem filtering_fold `{Platform} :
  (∀ body detail,
     TextDetailCodec (Some body) = Right detail ↔
     detail_contract body (txt detail) ∧
     language detail = config.textsLang ∧ children detail = []) ∧
  (∀ body x, accepted body = Some x ↔ detail_contract body x) ∧
  (∀ o, o !! "txt" = None → isRight (TextDetailCodec (Some (JObj o))) = false) ∧
  (∀ o c cs, o !! "children" = Some (JArr (c :: cs)) →
             isRight (TextDetailCodec (Some (JObj o))) = false) ∧
  (∀ o, o !! "language" ≠ Some (JStr config.textsLang) →
        isRight (TextDetailCodec (Some (JObj o))) = false) ∧
  (∀ rs w,
     finish (Supplied filterCollections) rs w = Ok (omap accepted (map data rs)) w ∧
     (length (omap accepted (map data rs)) ≤ length rs)%nat) ∧
  (∀ urls concurrency updateProgress formatUrl fuel w,
     1 ≤ concurrency → (length urls < fuel)%nat →
     match makeConcurrentHttpsReqs fuel urls concurrency (Supplied filterCollections)
             updateProgress formatUrl w with
     | Ok acc w' =>
         ∃ bodies evs,
           trace w' = trace w ++ evs ∧
           length bodies = length urls ∧
           requests evs =
             zip_with (λ url body, (format formatUrl url, 10000, inr body)) urls bodies ∧
           acc = omap accepted bodies ∧
           (length acc ≤ length urls)%nat
     | Exn e w' =>
         ∃ evs,
           trace w' = trace w ++ evs ∧
           ((∃ e', e = AxiosError e' ∧ rejected_with e' evs) ∨
            progress_threw updateProgress e)
     | OutOfFuel => False
     end).
Proof.
  assert (∀ o, (∀ detail, TextDetailCodec (Some (JObj o)) = Right detail → False) →
               isRight (TextDetailCodec (Some (JObj o))) = false) as Hreject.
  { intros o Hno. destruct (TextDetailCodec (Some (JObj o))) as [|detail] eqn:Hd; [done|].
    destruct (Hno detail eq_refl). }
  split_and!.
  - apply TextDetailCodec_Right.
  - apply accepted_Some.
  - intros o Hx. apply Hreject. intros detail Hd.
    apply TextDetailCodec_Right in Hd as [(o' & [= <-] & _ & _ & Hx') _]. congruence.
  - intros o c cs Hc. apply Hreject. intros detail Hd.
    apply TextDetailCodec_Right in Hd as [(o' & [= <-] & _ & Hc' & _) _]. congruence.
  - intros o Hl. apply Hreject. intros detail Hd.
    apply TextDetailCodec_Right in Hd as [(o' & [= <-] & Hl' & _) _]. congruence.
  - intros rs w. split.
    + cbn [finish]. by rewrite reduceM_filterCollections.
    + rewrite <- (length_map data rs). apply length_omap_le.
  - intros urls concurrency updateProgress formatUrl fuel w Hc Hfuel.
    pose proof (makeConcurrentHttpsReqs_spec fuel urls concurrency
                  (Supplied filterCollections) updateProgress formatUrl w Hc Hfuel)
      as Hspec.
    destruct (makeConcurrentHttpsReqs _ _ _ _ _ _ w) as [acc w'|e w'|]; [| |done].
    + destruct Hspec as (evs & rs & w1 & out & _ & Hfin & Htr & Htr' & _ & Hreq & Hurls).
      cbn [finish] in Hfin. rewrite reduceM_filterCollections in Hfin.
      injection Hfin as <- <-.
      assert (length (map data rs) = length urls) as Hlen.
      { apply (f_equal length) in Hurls. by rewrite !length_map in *. }
      exists (map data rs), evs. split_and!; [done|done| |done|].
      * rewrite Hreq. by apply responses_zip.
      * rewrite <- Hlen. apply length_omap_le.
    + destruct Hspec as (evs & k & Htr & _ & _ & Hcases). exists evs. split; [done|].
      destruct Hcases as [[_ [Hthrew|Hthrew]]|(e' & pre & n & -> & _ & Hrej)].
      * by right.
      * by destruct (filterCollections_never_throws e).
      * left. by exists e'.
Qed.

(** The scenario of the specification: of the works ["a"], ["b"], ["c"]
    fetched two at a time, ["b"] is a collection; the call keeps the texts of
    ["a"] and ["c"], in that order, after one batch of two requests and one
    batch of one. *)
Lemma filtering_fold_witness :
  1 ≤ 2 ∧ (length ["a"; "b"; "c"] < 4)%nat ∧
  ∃ w',
    makeConcurrentHttpsReqs 4 ["a"; "b"; "c"] 2
      (@Supplied (scripted library) _ filterCollections) None (Some bookUrl)
      (fresh library)
    = Ok ["https://h/media/a.txt"; "https://h/media/c.txt"] w' ∧
    wire (trace w') =
      [inl (bookUrl "a", 10000); inl (bookUrl "b", 10000); inr 2%nat;
       inl (bookUrl "c", 10000); inr 1%nat].
Proof.
  split; [lia|]. split; [simpl; lia|].
  destruct (filtering_fold (H := scripted library)) as (_ & _ & _ & _ & _ & _ & Hcall).
  specialize (Hcall ["a"; "b"; "c"] 2 None (Some bookUrl) 4%nat (fresh library)
                ltac:(lia) ltac:(simpl; lia)).
  destruct (makeConcurrentHttpsReqs 4 ["a"; "b"; "c"] 2 (Supplied filterCollections)
              None (Some bookUrl) (fresh library)) as [acc w'|e w'|] eqn:Hrun;
    [|vm_compute in Hrun; discriminate Hrun|destruct Hcall].
  exists w'. vm_compute in Hrun. injection Hrun as <- <-. split; reflexivity.
Defined.

(** C10. Validation looks at the named properties only. A detail body
    whose [language], [children] and [txt] satisfy the contract is accepted
    whatever other properties it has, and adding a property that the
    contract does not name never changes the verdict. Likewise an entry of
    the works list needs only a string [slug]: it is accepted whatever else
    it carries, and so is a list of such entries. *)
Theorem extra_fields_ignored (o : gmap string json) (k : string) (v : json) :
  (∀ x,
     o !! "language" = Some (JStr config.textsLang) →
     o !! "children" = Some (JArr []) →
     o !! "txt" = Some (JStr x) →
     TextDetailCodec (Some (JObj o)) =
       Right {| language := config.textsLang; children := []; txt := x |}) ∧
  (k ≠ "language" → k ≠ "children" → k ≠ "txt" →
   TextDetailCodec (Some (JObj (<[k:=v]> o))) = TextDetailCodec (Some (JObj o))) ∧
  (∀ s, o !! "slug" = Some (JStr s) →
        TextDataEntryCodec (Some (JObj o)) = Right {| slug := s |}) ∧
  (k ≠ "slug" →
   TextDataEntryCodec (Some (JObj (<[k:=v]> o))) = TextDataEntryCodec (Some (JObj o))) ∧
  (∀ (os : list (gmap string json)) (slugs : list string),
     Forall2 (λ o s, o !! "slug" = Some (JStr s)) os slugs →
     TextsDataCodec (Some (JArr (map JObj os))) = Right (map Build_TextData slugs)).
Proof.
  split_and!.
  - intros x Hl Hc Hx. apply TextDetailCodec_Right. split; [|done]. by exists o.
  - intros Hl Hc Hx. unfold TextDetailCodec. cbn [t.record].
    by rewrite !lookup_insert_ne by done.
  - intros s Hs. unfold TextDataEntryCodec. cbn [t.record]. by rewrite Hs.
  - intros Hs. unfold TextDataEntryCodec. cbn [t.record].
    by rewrite lookup_insert_ne by done.
  - intros os slugs Hall. unfold TextsDataCodec, t.array.
    induction Hall as [|o' s os slugs Hs _ IH]; [done|].
    cbn [map t.items]. rewrite IH. unfold TextDataEntryCodec at 1. cbn [t.record].
    by rewrite Hs.
Qed.

(** The detail of work ["c"] of the library carries an [epoch] that the
    contract does not name. *)
Lemma extra_fields_ignored_witness :
  TextDetailCodec
    (Some (obj [("language", JStr "pol"); ("children", JArr []);
                ("txt", JStr "https://h/media/c.txt"); ("epoch", JStr "Romantyzm")]))
  = Right {| language := "pol"; children := []; txt := "https://h/media/c.txt" |}.
Proof.
  apply (extra_fields_ignored _ "" JNull); reflexivity.
Defined.

(** ** Claims about the main flow *)

(** C7. When the output directory exists at the start of a run, the run
    only clears the console and prints its last message: it returns with
    the file system and the network as they were, having issued no request,
    created no directory and written no file. *)
Theorem run_idempotent `{Platform} (fuel : nat) (w : World) :
  fs_exists outputRawPath (fs w) = true →
  ∃ w' evs,
    main fuel w = Ok () w' ∧
    fs w' = fs w ∧ net w' = net w ∧
    trace w' = trace w ++ evs ∧
    evs = [EvClient Clear; EvClient (Log MsgDone)] ∧
    requests evs = [] ∧ writes evs = [].
Proof.
  intros Hexists.
  exists {| net := net w; fs := fs w;
            trace := trace w ++ [EvClient Clear; EvClient (Log MsgDone)] |},
    [EvClient Clear; EvClient (Log MsgDone)].
  split_and!; try done.
  rewrite main_unfold, Hexists. cbn [negb].
  by rewrite run_bind, run_ret, lift_clog, emit_emit.
Qed.

(** The whole process twice against the small library: the second run
    finds the directory of the first and does nothing. *)
Lemma run_idempotent_witness :
  ∃ w1 w2,
    main (H := scripted library) 4 (fresh library) = Ok () w1 ∧
    @fs_exists (scripted library) (outputRawPath (H := scripted library)) (fs w1)
      = true ∧
    main 4 w1 = Ok () w2 ∧
    fs w2 = fs w1 ∧
    trace w2 = trace w1 ++ [EvClient Clear; EvClient (Log MsgDone)].
Proof.
  destruct (main (H := scripted library) 4 (fresh library)) as [[] w1|e w1|] eqn:Hfirst;
    [|vm_compute in Hfirst; discriminate Hfirst..].
  assert (@fs_exists (scripted library) (outputRawPath (H := scripted library)) (fs w1)
          = true) as Hexists.
  { vm_compute in Hfirst. injection Hfirst as <-. vm_compute. reflexivity. }
  clear Hfirst.
  destruct (run_idempotent (H := scripted library) 4 w1 Hexists)
    as (w2 & evs & Hsecond & Hfs & _ & Htr & -> & _).
  exists w1, w2.
  exact (conj eq_refl (conj Hexists (conj Hsecond (conj Hfs Htr)))).
Defined.

(** C5. A works list that fails [TextsDataCodec] ends the run: the main
    flow throws right after the response of the list request, before any
    detail is requested, any file written or the last message printed. A
    detail that fails [TextDetailCodec] ends nothing: the reduce function
    returns the accumulator as it was, without throwing, and the fold goes on
    with the remaining responses, as if the offending one had not been
    there. *)
Theorem shape_mismatch_policy `{Platform} :
  (∀ fuel w s1 n1 body errs,
     fs_exists outputRawPath (fs w) = false →
     fs_mkdir outputRawPath (fs w) = (None, s1) →
     respond textsUrl 5000 (net w) = (inr body, n1) →
     TextsDataCodec (Some body) = Left errs →
     main fuel w =
       Exn (Error "invalid texts data req response format")
         {| net := n1; fs := s1;
            trace := trace w ++ [EvClient Clear; EvClient (Mkdir outputRawPath);
                                 EvClient (Log MsgGettingSlugs);
                                 EvRequest textsUrl 5000 (inr body)] |}) ∧
  (∀ acc r s errs,
     TextDetailCodec (Some (data r)) = Left errs →
     filterCollections acc r s = COk acc s []) ∧
  (∀ rs1 r rs2 w errs,
     TextDetailCodec (Some (data r)) = Left errs →
     finish (Supplied filterCollections) (rs1 ++ r :: rs2) w =
       Ok (omap accepted (map data rs1) ++ omap accepted (map data rs2)) w ∧
     finish (Supplied filterCollections) (rs1 ++ r :: rs2) w =
       finish (Supplied filterCollections) (rs1 ++ rs2) w).
Proof.
  split_and!.
  - intros fuel w s1 n1 body errs Hexists Hmkdir Hrespond Hdecode.
    rewrite main_unfold, Hexists. cbn [negb]. rewrite run_bind.
    unfold populate. rewrite run_bind.
    unfold lift at 1, mkdirSync. cbn [emit fs net trace]. rewrite Hmkdir.
    cbn [map]. rewrite run_bind, lift_clog. cbv beta iota.
    rewrite run_bind. unfold axios_get. cbn [emit fs net trace]. rewrite Hrespond.
    cbn [settle]. rewrite run_bind. cbn [await]. unfold ret. cbv beta iota.
    cbn [data]. rewrite Hdecode. unfold throw. by rewrite <- !app_assoc.
  - intros acc r s errs Hdecode. unfold filterCollections. by rewrite Hdecode.
  - intros rs1 r rs2 w errs Hdecode.
    assert (accepted (data r) = None) as Hr by (unfold accepted; by rewrite Hdecode).
    cbn [finish]. rewrite !reduceM_filterCollections.
    rewrite !map_app, !omap_app. cbn [map omap list_omap]. by rewrite Hr.
Qed.

(** Against the service whose works list is not a list, the run stops after
    its first request and writes nothing. *)
Lemma shape_mismatch_policy_witness :
  ∃ w',
    main (H := scripted broken) 4 (fresh broken)
      = Exn (Error "invalid texts data req response format") w' ∧
    wire (trace w') = [inl (textsUrl, 5000)] ∧
    writes (trace w') = [].
Proof.
  destruct (shape_mismatch_policy (H := scripted broken)) as [Hlist _].
  eexists. split.
  - eapply (Hlist 4%nat (fresh broken)); reflexivity.
  - split; reflexivity.
Defined.

(** C8, as stated, fails: in a run against the small library the metadata
    lookups of the filter phase and the downloads of the texts all carry
    10000 ms, so no lookup has a shorter timeout than a download. *)
Lemma distinct_timeouts_counterexample :
  ∃ w',
    main (H := scripted library) 4 (fresh library) = Ok () w' ∧
    map fst (requests (filter_phase (trace w'))) =
      [(bookUrl "a", 10000); (bookUrl "b", 10000); (bookUrl "c", 10000)] ∧
    map fst (requests (download_phase (trace w'))) =
      [("https://h/media/a.txt", 10000); ("https://h/media/c.txt", 10000)] ∧
    ¬ lookups_shorter_than_downloads (trace w').
Proof.
  assert (match main (H := scripted library) 4 (fresh library) with
          | Ok _ w => map fst (requests (filter_phase (trace w)))
          | _ => []
          end
          = [(bookUrl "a", 10000); (bookUrl "b", 10000); (bookUrl "c", 10000)])
    as Hlookups by (vm_compute; reflexivity).
  assert (match main (H := scripted library) 4 (fresh library) with
          | Ok _ w => map fst (requests (download_phase (trace w)))
          | _ => []
          end
          = [("https://h/media/a.txt", 10000); ("https://h/media/c.txt", 10000)])
    as Hdownloads by (vm_compute; reflexivity).
  destruct (main (H := scripted library) 4 (fresh library)) as [[] w'|e w'|];
    [|discriminate Hlookups..].
  exists w'. split; [reflexivity|]. split; [exact Hlookups|]. split; [exact Hdownloads|].
  intros Hclaim.
  destruct (requests (filter_phase (trace w'))) as [|x xs] eqn:Hx;
    [discriminate Hlookups|].
  destruct (requests (download_phase (trace w'))) as [|y ys] eqn:Hy;
    [discriminate Hdownloads|].
  specialize (Hclaim x y). rewrite Hx, Hy in Hclaim.
  specialize (Hclaim (list_elem_of_here _ _) (list_elem_of_here _ _)).
  injection Hlookups as Hxt _. injection Hdownloads as Hyt _.
  destruct x as [[ux tx] sx], y as [[uy ty] sy]. cbn in *.
  injection Hxt as _ ->. injection Hyt as _ ->. lia.
Qed.

(** C8, amended. Every request carries a fixed timeout. All the requests
    that [makeConcurrentHttpsReqs] issues carry 10000 ms, whatever the call
    (metadata lookups and downloads alike). In a run of the main flow the
    first request, if there is one, is the request of the works list, with
    5000 ms, and every later request carries 10000 ms: only the lookup of the
    works list has a shorter timeout than the downloads. *)
Theorem request_timeouts `{Platform} :
  (∀ A fuel urls concurrency (processData : processData_t A) updateProgress formatUrl w,
     match makeConcurrentHttpsReqs fuel urls concurrency processData updateProgress
             formatUrl w with
     | Ok _ w' | Exn _ w' => ∃ evs, trace w' = trace w ++ evs ∧ ten_seconds evs
     | OutOfFuel => True
     end) ∧
  (∀ fuel w,
     match main fuel w with
     | Ok _ w' | Exn _ w' =>
         ∃ evs, trace w' = trace w ++ evs ∧
                (requests evs = [] ∨ list_then_batches evs)
     | OutOfFuel => True
     end).
Proof.
  split.
  - intros A fuel urls concurrency processData updateProgress formatUrl.
    apply emits_makeConcurrentHttpsReqs.
  - intros fuel. apply emits_main.
Qed.

(** ** Beyond the claims: file names *)

Lemma split_slash_cons (s : string) : ∃ seg segs, split_slash s = seg :: segs.
Proof.
  induction s as [|c s IH]; [by exists "", []|].
  cbn [split_slash]. destruct (Ascii.eqb c "/"); [by eexists _, _|].
  destruct IH as (seg & segs & ->). by eexists _, _.
Qed.

Lemma concat_String (sep : string) (c : ascii) (seg : string) (segs : list string) :
  String.concat sep (String c seg :: segs) = String c (String.concat sep (seg :: segs)).
Proof. by destruct segs. Qed.

Lemma string_app_assoc (s1 s2 s3 : string) :
  (s1 +:+ s2) +:+ s3 = s1 +:+ (s2 +:+ s3).
Proof.
  induction s1 as [|c s1 IH]; [done|].
  change (String c ((s1 +:+ s2) +:+ s3) = String c (s1 +:+ (s2 +:+ s3))).
  by rewrite IH.
Qed.

Lemma concat_snoc (sep : string) (segs : list string) (name : string) :
  String.concat sep (segs ++ [name]) =
  match segs with
  | [] => name
  | _ :: _ => String.concat sep segs +:+ sep +:+ name
  end.
Proof.
  induction segs as [|seg segs IH]; [done|].
  destruct segs as [|seg' segs]; [done|].
  change (String.concat sep ((seg :: seg' :: segs) ++ [name]))
    with (seg +:+ sep +:+ String.concat sep ((seg' :: segs) ++ [name])).
  rewrite IH.
  change (String.concat sep (seg :: seg' :: segs))
    with (seg +:+ sep +:+ String.concat sep (seg' :: segs)).
  by rewrite !string_app_assoc.
Qed.

Lemma split_slash_no_slash (url : string) :
  ∀ seg, seg ∈ split_slash url → "/"%char ∉ String.list_ascii_of_string seg.
Proof.
  induction url as [|c url IH]; intros seg Hseg.
  - apply list_elem_of_singleton in Hseg as ->. apply not_elem_of_nil.
  - cbn [split_slash] in Hseg. destruct (Ascii.eqb_spec c "/") as [->|Hc].
    + apply elem_of_cons in Hseg as [->|Hseg]; [apply not_elem_of_nil|by apply IH].
    + destruct (split_slash_cons url) as (seg' & segs & Hsplit).
      rewrite Hsplit in *. apply elem_of_cons in Hseg as [->|Hseg].
      * cbn. apply not_elem_of_cons. split; [done|].
        apply IH, elem_of_cons. by left.
      * apply IH, elem_of_cons. by right.
Qed.

Lemma join_split_slash (url : string) : join_segments (split_slash url) = url.
Proof.
  unfold join_segments. induction url as [|c url IH]; [done|].
  cbn [split_slash]. destruct (Ascii.eqb_spec c "/") as [->|Hc];
    destruct (split_slash_cons url) as (seg & segs & Hsplit); rewrite Hsplit in *.
  - cbn. by rewrite <- IH.
  - by rewrite concat_String, IH.
Qed.

(** X1. [url.split('/')] and [join('/')] are inverse to each other; no
    segment holds a slash; the list of segments is never empty, so that
    [pop()] always yields a name, the part of the URL after its last slash
    (the whole URL when it has none). *)
Theorem split_pop_round_trip (url : string) :
  join_segments (split_slash url) = url ∧
  (∀ seg, seg ∈ split_slash url → "/"%char ∉ String.list_ascii_of_string seg) ∧
  ∃ init name,
    split_slash url = init ++ [name] ∧
    last (split_slash url) = Some name ∧
    basename url = name ∧
    url = match init with
          | [] => name
          | _ :: _ => join_segments init +:+ "/" +:+ name
          end.
Proof.
  split; [apply join_split_slash|]. split; [apply split_slash_no_slash|].
  pose proof (join_split_slash url) as Hjoin. unfold basename.
  assert (split_slash url ≠ []) as Hne
    by (destruct (split_slash_cons url) as (seg & segs & ->); done).
  revert Hne Hjoin. generalize (split_slash url).
  intros l. destruct l as [|name init _] using rev_ind; [done|].
  intros _ Hjoin. exists init, name. rewrite last_snoc. split_and!; [done..|].
  rewrite <- Hjoin at 1. unfold join_segments. apply concat_snoc.
Qed.

(** ** Beyond the claims: the contract of the works list *)

Lemma items_Right {A} (item : Codec A) (us : list json) (xs : list A) :
  t.items item us = Right xs ↔ Forall2 (λ u x, item (Some u) = Right x) us xs.
Proof.
  revert xs. induction us as [|u us IH]; intros xs; cbn [t.items].
  - split; [by intros [= <-]; constructor|by inversion 1].
  - split.
    + destruct (item (Some u)) as [|x] eqn:Hu, (t.items item us) as [|xs'] eqn:Hus;
        try done.
      intros [= <-]. constructor; [done|]. by apply IH.
    + inversion 1 as [|?? x xs' Hu Hus]; subst. apply IH in Hus. by rewrite Hu, Hus.
Qed.

Lemma TextDataEntryCodec_Right (u : unknown) (text : TextData) :
  TextDataEntryCodec u = Right text ↔
  ∃ o, u = Some (JObj o) ∧ o !! "slug" = Some (JStr (slug text)).
Proof.
  unfold TextDataEntryCodec. split.
  - destruct (t.record u) as [o|] eqn:Ho; [|done].
    assert (u = Some (JObj o)) as -> by (destruct u as [[]|]; cbn in Ho; congruence).
    destruct (t.string_ (o !! "slug")) as [|s] eqn:Hs; [done|].
    intros [= <-]. apply string_Right in Hs. by exists o.
  - intros (o & -> & Hs). cbn [t.record]. rewrite Hs. cbn. by destruct text.
Qed.

(** X2. [TextsDataCodec] accepts a value exactly when it is an array every
    element of which is an object with a string [slug]; the decoded entries
    carry those slugs, in order. An array with a single entry that is not
    such an object is rejected as a whole, and so is a value that is not an
    array. *)
Theorem works_list_contract (u : unknown) (texts : list TextData) :
  (TextsDataCodec u = Right texts ↔
   ∃ os : list (gmap string json),
     u = Some (JArr (map JObj os)) ∧
     Forall2 (λ o text, o !! "slug" = Some (JStr (slug text))) os texts) ∧
  (∀ items entry,
     u = Some (JArr items) → entry ∈ items →
     isRight (TextDataEntryCodec (Some entry)) = false →
     isRight (TextsDataCodec u) = false) ∧
  ((∀ items, u ≠ Some (JArr items)) → isRight (TextsDataCodec u) = false).
Proof.
  split_and!.
  - unfold TextsDataCodec, t.array. split.
    + destruct u as [[| | | |items|]|]; try done.
      intros Hitems. apply items_Right in Hitems.
      induction Hitems as [|entry text items texts Hentry _ (os & [= ->] & Hos)].
      * by exists [].
      * apply TextDataEntryCodec_Right in Hentry as (o & [= ->] & Ho).
        exists (o :: os). split; [done|]. by constructor.
    + intros (os & -> & Hos). apply items_Right.
      induction Hos as [|o text os texts Ho _ IH]; constructor; [|done].
      apply TextDataEntryCodec_Right. by exists o.
  - intros items entry -> Hentry Hbad.
    unfold TextsDataCodec, t.array.
    destruct (t.items TextDataEntryCodec items) as [|xs] eqn:Hitems; [done|].
    apply items_Right in Hitems.
    apply list_elem_of_lookup in Hentry as [i Hi].
    destruct (Forall2_lookup_l _ _ _ _ _ Hitems Hi) as (x & _ & Hx).
    by rewrite Hx in Hbad.
  - intros Hnot. unfold TextsDataCodec, t.array.
    destruct u as [[| | | |items|]|]; try done. by destruct (Hnot items).
Qed.

(** ** Beyond the claims: the fetcher *)

Section FetcherExtras.
Context `{Platform}.

(** More fuel does not change a run that has settled. *)
Lemma batchLoop_fuel_mono urls concurrency updateProgress formatUrl :
  ∀ fuel extra i reqResults w,
    batchLoop fuel urls concurrency updateProgress formatUrl i reqResults w ≠ OutOfFuel →
    batchLoop (fuel + extra) urls concurrency updateProgress formatUrl i reqResults w =
    batchLoop fuel urls concurrency updateProgress formatUrl i reqResults w.
Proof.
  induction fuel as [|fuel IH]; intros extra i acc w Hsettled; [done|].
  change (S fuel + extra)%nat with (S (fuel + extra)).
  rewrite !batchLoop_S in *. destruct (_ <? _); [|done].
  rewrite !run_bind in *. destruct (fetchBatch _ _ w) as [rs w1|e w1|]; [|done..].
  rewrite !run_bind in *. destruct (progress _ _ w1) as [[] w2|e w2|]; [|done..].
  by apply IH.
Qed.

Lemma makeConcurrentHttpsReqs_fuel_mono {A} fuel extra urls concurrency
    (processData : processData_t A) updateProgress formatUrl w :
  makeConcurrentHttpsReqs fuel urls concurrency processData updateProgress formatUrl w
    ≠ OutOfFuel →
  makeConcurrentHttpsReqs (fuel + extra) urls concurrency processData updateProgress
    formatUrl w =
  makeConcurrentHttpsReqs fuel urls concurrency processData updateProgress formatUrl w.
Proof.
  unfold makeConcurrentHttpsReqs. rewrite !run_bind. intros Hsettled.
  rewrite batchLoop_fuel_mono; [done|]. intros Hout. by rewrite Hout in Hsettled.
Qed.

(** A call that settled is the run over the chunks, whatever its fuel. *)
Lemma makeConcurrentHttpsReqs_settled {A} fuel urls concurrency
    (processData : processData_t A) updateProgress formatUrl w :
  1 ≤ concurrency →
  makeConcurrentHttpsReqs fuel urls concurrency processData updateProgress formatUrl w
    ≠ OutOfFuel →
  makeConcurrentHttpsReqs fuel urls concurrency processData updateProgress formatUrl w =
  (reqResults ← runBatches updateProgress formatUrl
                  (chunks (Z.to_nat concurrency) urls) [];
   finish processData reqResults) w.
Proof.
  intros Hc Hsettled.
  rewrite <- (makeConcurrentHttpsReqs_fuel_mono fuel (S (length urls))) by done.
  apply makeConcurrentHttpsReqs_chunks; [done|lia].
Qed.

(** X3. When the concurrency is at least the number of targets (and there
    is a target), the call makes a single batch of the whole list: it issues
    and joins all the requests, reports the whole count once, and folds. *)
Theorem single_batch {A} (urls : list string) (concurrency : Z)
    (processData : processData_t A) updateProgress formatUrl (fuel : nat) (w : World) :
  urls ≠ [] → Z.of_nat (length urls) ≤ concurrency → (2 ≤ fuel)%nat →
  chunks (Z.to_nat concurrency) urls = [urls] ∧
  makeConcurrentHttpsReqs fuel urls concurrency processData updateProgress formatUrl w =
  (reqResults ← fetchBatch formatUrl urls;
   _ ← progress updateProgress (Z.of_nat (length urls));
   finish processData reqResults) w.
Proof.
  intros Hurls Hlen Hfuel.
  assert (chunks (Z.to_nat concurrency) urls = [urls]) as Hchunks.
  { unfold chunks. destruct urls as [|url urls]; [done|].
    cbn [length chunks_aux]. rewrite take_ge, drop_ge by (simpl in *; lia).
    by rewrite chunks_aux_nil. }
  split; [done|].
  destruct fuel as [|[|fuel]]; [lia..|].
  unfold makeConcurrentHttpsReqs. rewrite run_bind, batchLoop_S.
  assert (0 < Z.of_nat (length urls)) by (destruct urls; [done|simpl; lia]).
  destruct (Z.ltb_spec 0 (Z.of_nat (length urls))); [|lia].
  rewrite slice_take_drop by lia. change (drop (Z.to_nat 0) urls) with urls.
  rewrite take_ge by lia. rewrite !run_bind.
  destruct (fetchBatch formatUrl urls w) as [rs w1|e w1|]; [|done..].
  rewrite !run_bind. destruct (progress _ _ w1) as [[] w2|e w2|]; [|done..].
  rewrite batchLoop_S. destruct (Z.ltb_spec (0 + concurrency) (Z.of_nat (length urls)));
    [lia|]. by rewrite run_ret.
Qed.

(** X4. The earlier version of the fetcher, which has no progress
    parameter, is the present one called without a progress callback. *)
Theorem earlier_version_agrees {A} (fuel : nat) (urls : list string) (concurrency : Z)
    (processData : processData_t A) formatUrl (w : World) :
  makeConcurrentHttpsReqs_v2 fuel urls concurrency processData formatUrl w =
  makeConcurrentHttpsReqs fuel urls concurrency processData None formatUrl w.
Proof.
  unfold makeConcurrentHttpsReqs_v2, makeConcurrentHttpsReqs. rewrite !run_bind.
  assert (∀ i acc w,
            batchLoop_v2 fuel urls concurrency formatUrl i acc w =
            batchLoop fuel urls concurrency None formatUrl i acc w) as ->.
  { clear w. induction fuel as [|fuel IH]; intros i acc w; [done|].
    rewrite batchLoop_S. cbn [batchLoop_v2]. destruct (_ <? _); [|done].
    rewrite !run_bind. destruct (fetchBatch _ _ w) as [rs w1|e w1|]; [|done..].
    rewrite run_bind. cbn [progress]. rewrite run_ret. apply IH. }
  destruct (batchLoop _ _ _ _ _ _ _ w) as [rs w1|e w1|]; [|done..].
  by destruct processData.
Qed.

End FetcherExtras.

(** ** Beyond the claims: the download phase and the main flow *)

Section MainExtras.
Context `{Platform}.

Lemma last_split_slash (url : string) : last (split_slash url) = Some (basename url).
Proof.
  unfold basename. destruct (split_slash_cons url) as (seg & segs & ->).
  by destruct (proj2 (last_is_Some (seg :: segs)) ltac:(done)) as [name ->].
Qed.

Lemma writeText_run acc r s :
  writeText acc r s =
  COk (acc ++ (write_all [file_of r] s).1) (write_all [file_of r] s).2
    [WriteFile (file_of r).1 (file_of r).2].
Proof.
  unfold writeText, file_of. rewrite last_split_slash.
  unfold mbind, C_bind, cbind, writeFile. cbn [write_all fst snd].
  by destruct (fs_write _ _ s) as [[code|] s'].
Qed.

Lemma length_write_all files s : length (write_all files s).1 = length files.
Proof.
  revert s. induction files as [|[path body] files IH]; intros s; [done|].
  cbn [write_all]. destruct (fs_write path body s) as [failure s'].
  specialize (IH s'). destruct (write_all files s') as [ps s'']. cbn in *. lia.
Qed.

Lemma reduceM_writeText rs :
  ∀ acc w,
    reduceM (λ acc reqResult, lift (writeText acc reqResult)) rs acc w =
    Ok (acc ++ (write_all (map file_of rs) (fs w)).1)
       {| net := net w;
          fs := (write_all (map file_of rs) (fs w)).2;
          trace := trace w ++ map (λ f, EvClient (WriteFile f.1 f.2)) (map file_of rs) |}.
Proof.
  induction rs as [|r rs IH]; intros acc w.
  { cbn. rewrite !app_nil_r. by destruct w. }
  cbn [reduceM]. rewrite run_bind. unfold lift at 1. rewrite writeText_run.
  rewrite IH. cbn [map write_all fs net trace fst snd].
  destruct (file_of r) as [path body]. cbn [fst snd].
  destruct (fs_write path body (fs w)) as [failure s'].
  cbn [fs net trace fst snd].
  destruct (write_all (map file_of rs) s') as [ps s'']. cbn [fst snd].
  by rewrite <- !app_assoc.
Qed.

(** X5. Folding the reduce function of the download phase over any
    responses never throws and issues no request. It starts one write per
    response, in the order of the responses, each to the file of the output
    directory named after the last segment of the response's URL and holding
    the response's body, and it returns the promises of these writes. *)
Theorem download_fold (rs : list AxiosResponse) (w : World) :
  let files := map file_of rs in
  finish (Supplied writeText) rs w =
    Ok (write_all files (fs w)).1
       {| net := net w;
          fs := (write_all files (fs w)).2;
          trace := trace w ++ map (λ f, EvClient (WriteFile f.1 f.2)) files |} ∧
  length (write_all files (fs w)).1 = length rs.
Proof.
  intros files. split.
  - cbn [finish]. by rewrite reduceM_writeText.
  - unfold files. by rewrite length_write_all, length_map.
Qed.

(** The run of a missing directory, up to the request of the works list. *)
Lemma main_start (fuel : nat) (w : World) :
  fs_exists outputRawPath (fs w) = false →
  main fuel w =
  match fs_mkdir outputRawPath (fs w) with
  | (Some code, s1) =>
      Exn (FsError code)
        {| net := net w; fs := s1;
           trace := trace w ++ [EvClient Clear; EvClient (Mkdir outputRawPath)] |}
  | (None, s1) =>
      let '(settled, n1) := respond textsUrl 5000 (net w) in
      let w2 := {| net := n1; fs := s1;
                   trace := trace w ++ [EvClient Clear; EvClient (Mkdir outputRawPath);
                                        EvClient (Log MsgGettingSlugs);
                                        EvRequest textsUrl 5000 settled] |} in
      match settled with
      | inl e => Exn (AxiosError e) w2
      | inr body =>
          match TextsDataCodec (Some body) with
          | Left _ => Exn (Error "invalid texts data req response format") w2
          | Right textObjs =>
              (_ ← (_ ← lift (clog (Log MsgFiltering));
                    _ ← lift (clog (ProgStart (Z.of_nat (length (map slug textObjs)))));
                    txtUrls ← makeConcurrentHttpsReqs fuel (map slug textObjs)
                                config.reqConcurrency (Supplied filterCollections)
                                (Some incrementProgBar) (Some bookUrl);
                    _ ← lift (clog (Log MsgDownloading));
                    _ ← lift (clog (ProgStart (Z.of_nat (length txtUrls))));
                    writes ← makeConcurrentHttpsReqs fuel txtUrls config.reqConcurrency
                               (Supplied writeText) (Some incrementProgBar) None;
                    _ ← Promise_all writes;
                    mret ());
               lift (clog (Log MsgDone))) w2
          end
      end
  end.
Proof.
  intros Hexists. rewrite main_unfold, Hexists. cbn [negb]. rewrite run_bind.
  unfold populate. rewrite run_bind.
  unfold lift at 1, mkdirSync. cbn [emit fs net trace].
  destruct (fs_mkdir outputRawPath (fs w)) as [[code|] s1]; cbn [map].
  { by rewrite <- app_assoc. }
  rewrite run_bind, lift_clog. cbv beta iota.
  rewrite run_bind. unfold axios_get. cbn [emit fs net trace].
  destruct (respond textsUrl 5000 (net w)) as [[e|body] n1]; cbn [settle].
  { rewrite run_bind. cbn [await]. unfold throw. by rewrite <- !app_assoc. }
  rewrite run_bind. cbn [await]. unfold ret. cbv beta iota. cbn [data].
  rewrite <- !app_assoc. cbn [app].
  destruct (TextsDataCodec (Some body)) as [errs|textObjs]; [done|].
  by rewrite run_bind.
Qed.

(** X6. A run that finds no output directory creates it before anything
    else. If the creation fails, the run throws that failure and no request
    is issued. If the request of the works list is rejected, the run throws
    that error with the directory already created: a later run, finding the
    directory, does nothing, although nothing was downloaded. *)
Theorem failed_start (fuel : nat) (w : World) :
  fs_exists outputRawPath (fs w) = false →
  (∀ code s1,
     fs_mkdir outputRawPath (fs w) = (Some code, s1) →
     main fuel w =
       Exn (FsError code)
         {| net := net w; fs := s1;
            trace := trace w ++ [EvClient Clear; EvClient (Mkdir outputRawPath)] |}) ∧
  (∀ s1 e n1,
     fs_mkdir outputRawPath (fs w) = (None, s1) →
     respond textsUrl 5000 (net w) = (inl e, n1) →
     ∃ w',
       main fuel w = Exn (AxiosError e) w' ∧
       w' = {| net := n1; fs := s1;
               trace := trace w ++ [EvClient Clear; EvClient (Mkdir outputRawPath);
                                    EvClient (Log MsgGettingSlugs);
                                    EvRequest textsUrl 5000 (inl e)] |} ∧
       (fs_exists outputRawPath s1 = true →
        ∀ fuel',
          main fuel' w' =
            Ok () {| net := n1; fs := s1;
                     trace := trace w' ++ [EvClient Clear; EvClient (Log MsgDone)] |})).
Proof.
  intros Hexists. split.
  - intros code s1 Hmkdir. by rewrite main_start, Hmkdir.
  - intros s1 e n1 Hmkdir Hrespond. eexists. split; [|split; [reflexivity|]].
    + by rewrite main_start, Hmkdir, Hrespond.
    + intros Hthere fuel'. rewrite main_unfold. cbn [fs]. rewrite Hthere. cbn [negb].
      by rewrite run_bind, run_ret, lift_clog, emit_emit.
Qed.

(** *** Views of client events *)

Lemma clients_app evs1 evs2 : clients (evs1 ++ evs2) = clients evs1 ++ clients evs2.
Proof. apply omap_app. Qed.

Lemma clients_batch formatUrl b ss : clients (batch_events formatUrl b ss) = [].
Proof.
  unfold batch_events. rewrite clients_app, app_nil_r.
  revert ss. induction b as [|url b IH]; intros [|s ss]; try done. cbn. apply IH.
Qed.

Lemma clients_client out : clients (map EvClient out) = out.
Proof. induction out as [|c out IH]; [done|]. cbn. f_equal. exact IH. Qed.

Lemma writes_clients evs :
  writes evs =
  omap (λ c, match c with WriteFile p b => Some (p, b) | _ => None end) (clients evs).
Proof.
  induction evs as [|[u t s|n|[]] evs IH]; cbn; try done. f_equal. exact IH.
Qed.

Lemma bar_clients evs :
  bar evs =
  omap (λ c, match c with
             | ProgStart total => Some (inl total)
             | ProgIncrement amount => Some (inr amount)
             | _ => None
             end) (clients evs).
Proof.
  induction evs as [|[u t s|n|[]] evs IH]; cbn; try done; f_equal; exact IH.
Qed.

Lemma requests_clients evs : clients evs = [] → writes evs = [] ∧ bar evs = [].
Proof. intros Hc. by rewrite writes_clients, bar_clients, Hc. Qed.

(** *** The file system during a fetch *)

Lemma fetchBatch_fs formatUrl b w :
  match fetchBatch formatUrl b w with
  | Ok _ w' | Exn _ w' => fs w' = fs w
  | OutOfFuel => False
  end.
Proof.
  assert (∀ b w, ∃ ps w1,
            mapM (λ url, axios_get (format formatUrl url) 10000) b w = Ok ps w1 ∧
            fs w1 = fs w) as Hissue.
  { clear b w. induction b as [|url b IH]; intros w; [by exists [], w|].
    cbn [mapM]. rewrite run_bind. unfold axios_get at 1.
    destruct (respond _ _ _) as [s net1].
    destruct (IH {| net := net1; fs := fs w;
                    trace := trace w ++ [EvRequest (format formatUrl url) 10000 s] |})
      as (ps & w1 & Hrun & Hfs).
    eexists _, w1. by rewrite run_bind, Hrun, run_ret. }
  destruct (Hissue b w) as (ps & w1 & Hrun & Hfs).
  unfold fetchBatch. rewrite run_bind, Hrun. unfold Promise_all.
  by destruct (omap rejected ps).
Qed.

(** A completed run over batches with the progress-bar callback: the only
    client events are the reports, one per batch, and the file system is
    untouched. *)
Lemma runBatches_clients formatUrl bs :
  ∀ reqResults w rs w',
    runBatches (Some incrementProgBar) formatUrl bs reqResults w = Ok rs w' →
    ∃ evs, trace w' = trace w ++ evs ∧
           clients evs = map (λ b, ProgIncrement (Z.of_nat (length b))) bs ∧
           fs w' = fs w.
Proof.
  induction bs as [|b bs IH]; intros acc w rs w' Hrun.
  { cbn in Hrun. injection Hrun as <- <-. exists []. by rewrite app_nil_r. }
  cbn [runBatches] in Hrun. rewrite run_bind in Hrun.
  destruct (fetchBatch_spec formatUrl b w) as (ss & Hlen & Hfetch).
  pose proof (fetchBatch_fs formatUrl b w) as Hfs.
  destruct (fetchBatch formatUrl b w) as [rs1 w1|e w1|]; [|done..].
  destruct Hfetch as (Htr1 & _ & _). rewrite run_bind in Hrun.
  change (progress (Some incrementProgBar) (Z.of_nat (length b)) w1)
    with (Ok () (emit [EvClient (ProgIncrement (Z.of_nat (length b)))] w1)) in Hrun.
  cbv beta iota in Hrun.
  destruct (IH _ _ _ _ Hrun) as (evs & Htr & Hclients & Hfs').
  exists (batch_events formatUrl b ss
            ++ [EvClient (ProgIncrement (Z.of_nat (length b)))] ++ evs).
  split; [rewrite Htr; cbn [emit trace]; by rewrite Htr1, <- !app_assoc|].
  split; [by rewrite !clients_app, clients_batch, Hclients|].
  rewrite Hfs'. cbn [emit fs]. exact Hfs.
Qed.

(** A completed call with the progress-bar callback, taken apart. *)
Lemma call_completed {A} fuel urls (processData : processData_t A) formatUrl w acc w' :
  makeConcurrentHttpsReqs fuel urls config.reqConcurrency processData
    (Some incrementProgBar) formatUrl w = Ok acc w' →
  ∃ rs w1 evs,
    finish processData rs w1 = Ok acc w' ∧
    trace w1 = trace w ++ evs ∧ fs w1 = fs w ∧
    map config_url rs = map (format formatUrl) urls ∧
    requests evs = map (λ r, (config_url r, 10000, inr (data r))) rs ∧
    clients evs =
      map (λ b, ProgIncrement (Z.of_nat (length b)))
        (chunks (Z.to_nat config.reqConcurrency) urls).
Proof.
  intros Hcall.
  rewrite makeConcurrentHttpsReqs_settled in Hcall; [|done|by rewrite Hcall].
  rewrite run_bind in Hcall.
  pose proof (runBatches_spec (Some incrementProgBar) formatUrl
                (chunks (Z.to_nat config.reqConcurrency) urls) [] w) as Hspec.
  destruct (runBatches _ _ _ [] w) as [rs w1|e w1|] eqn:Hrun; [|done..].
  destruct Hspec as (evs & new & Htr & Hrs & _ & Hreq & Hurls). cbn in Hrs. subst new.
  destruct (runBatches_clients _ _ _ _ _ _ Hrun) as (evs' & Htr' & Hclients & Hfs).
  assert (evs' = evs) as -> by (rewrite Htr in Htr'; by apply app_inv_head in Htr').
  exists rs, w1, evs. split_and!; try done.
  rewrite Hurls. unfold chunks. by rewrite chunks_aux_concat by (unfold config.reqConcurrency; lia).
Qed.

(** A run that returns after having found no output directory, taken
    apart into its steps. *)
Lemma main_completed (fuel : nat) (w w' : World) :
  fs_exists outputRawPath (fs w) = false →
  main fuel w = Ok () w' →
  ∃ s1 n1 listBody textObjs rs1 evs1 rs2 evs2,
    fs_mkdir outputRawPath (fs w) = (None, s1) ∧
    respond textsUrl 5000 (net w) = (inr listBody, n1) ∧
    TextsDataCodec (Some listBody) = Right textObjs ∧
    map config_url rs1 = map bookUrl (map slug textObjs) ∧
    requests evs1 = map (λ r, (config_url r, 10000, inr (data r))) rs1 ∧
    clients evs1 =
      map (λ b, ProgIncrement (Z.of_nat (length b)))
        (chunks (Z.to_nat config.reqConcurrency) (map slug textObjs)) ∧
    map config_url rs2 = omap accepted (map data rs1) ∧
    requests evs2 = map (λ r, (config_url r, 10000, inr (data r))) rs2 ∧
    clients evs2 =
      map (λ b, ProgIncrement (Z.of_nat (length b)))
        (chunks (Z.to_nat config.reqConcurrency) (omap accepted (map data rs1))) ∧
    omap rejected (write_all (map file_of rs2) s1).1 = [] ∧
    fs w' = (write_all (map file_of rs2) s1).2 ∧
    trace w' =
      trace w
      ++ [EvClient Clear; EvClient (Mkdir outputRawPath); EvClient (Log MsgGettingSlugs);
          EvRequest textsUrl 5000 (inr listBody);
          EvClient (Log MsgFiltering);
          EvClient (ProgStart (Z.of_nat (length textObjs)))]
      ++ evs1
      ++ [EvClient (Log MsgDownloading);
          EvClient (ProgStart (Z.of_nat (length rs2)))]
      ++ evs2
      ++ map (λ f, EvClient (WriteFile f.1 f.2)) (map file_of rs2)
      ++ [EvAwaitAll (length rs2); EvClient (Log MsgDone)].
Proof.
  intros Hexists Hmain. rewrite main_start in Hmain by done.
  destruct (fs_mkdir outputRawPath (fs w)) as [[code|] s1]; [done|].
  destruct (respond textsUrl 5000 (net w)) as [[e|listBody] n1]; [done|].
  destruct (TextsDataCodec (Some listBody)) as [errs|textObjs] eqn:Hdecode; [done|].
  rewrite run_bind in Hmain.
  match type of Hmain with
  | match ?m ?w2 with _ => _ end = _ => destruct (m w2) as [[] w8|e w8|] eqn:Hbody
  end; [|done..].
  rewrite lift_clog in Hmain. injection Hmain as <-.
  rewrite run_bind, lift_clog in Hbody. cbv beta iota in Hbody.
  rewrite run_bind, lift_clog in Hbody. cbv beta iota in Hbody.
  rewrite emit_emit in Hbody. rewrite run_bind in Hbody.
  destruct (makeConcurrentHttpsReqs fuel (map slug textObjs) _ _ _ _ _)
    as [txtUrls w4|e w4|] eqn:Hcall1; [|done..].
  apply call_completed in Hcall1
    as (rs1 & w3 & evs1 & Hfin1 & Htr1 & Hfs1 & Hurls1 & Hreq1 & Hcl1).
  cbn [finish] in Hfin1. rewrite reduceM_filterCollections in Hfin1.
  injection Hfin1 as <- <-. cbn [app] in Hbody.
  rewrite run_bind, lift_clog in Hbody. cbv beta iota in Hbody.
  rewrite run_bind, lift_clog in Hbody. cbv beta iota in Hbody.
  rewrite emit_emit in Hbody. rewrite run_bind in Hbody.
  destruct (makeConcurrentHttpsReqs fuel (omap accepted (map data rs1)) _ _ _ _ _)
    as [ps w6|e w6|] eqn:Hcall2; [|done..].
  apply call_completed in Hcall2
    as (rs2 & w5 & evs2 & Hfin2 & Htr2 & Hfs2 & Hurls2 & Hreq2 & Hcl2).
  cbn [finish] in Hfin2. rewrite reduceM_writeText in Hfin2.
  injection Hfin2 as <- <-. cbn [app] in Hbody.
  rewrite run_bind in Hbody. unfold Promise_all in Hbody.
  cbn [emit fs net trace] in *.
  rewrite length_write_all, length_map in Hbody.
  rewrite Hfs2, Hfs1 in *.
  destruct (omap rejected (write_all (map file_of rs2) s1).1) as [|x xs] eqn:Hrej;
    [|done].
  rewrite run_ret in Hbody. injection Hbody as <-.
  exists s1, n1, listBody, textObjs, rs1, evs1, rs2, evs2.
  assert (length (omap accepted (map data rs1)) = length rs2) as Hlen2.
  { apply (f_equal length) in Hurls2. by rewrite !length_map in Hurls2. }
  split_and!; try done.
  - rewrite Hurls2. apply map_id.
  - cbn [emit trace]. rewrite Htr2, Htr1, length_map, Hlen2.
    by rewrite <- !app_assoc.
Qed.

Lemma responses_zip_with {X} (f : X → string) (xs : list X) :
  ∀ rs : list AxiosResponse,
    map config_url rs = map f xs →
    map (λ r, (config_url r, 10000, inr (data r))) rs =
    zip_with (λ x body, (f x, 10000, @inr axios_error json body)) xs (map data rs).
Proof.
  induction xs as [|x xs IH]; intros [|r rs] Hurls; try done.
  injection Hurls as Hurl Hurls. cbn. rewrite Hurl. f_equal. by apply IH.
Qed.

Lemma files_zip_with (rs : list AxiosResponse) :
  map file_of rs =
  zip_with (λ url text, (path_join [outputRawPath; basename url], text))
    (map config_url rs) (map data rs).
Proof. induction rs as [|r rs IH]; [done|]. cbn. f_equal. exact IH. Qed.

Lemma views_of_reports {X} (f : X → Z) (xs : list X) (evs : list event) :
  clients evs = map (λ x, ProgIncrement (f x)) xs →
  writes evs = [] ∧ bar evs = map (λ x, inr (f x)) xs.
Proof.
  intros Hc. rewrite writes_clients, bar_clients, Hc. clear Hc.
  induction xs as [|x xs [IHw IHb]]; [done|]. cbn. split; [done|]. by f_equal.
Qed.

Lemma views_of_writes (files : list (string * json)) :
  requests (map (λ f, EvClient (WriteFile f.1 f.2)) files) = [] ∧
  writes (map (λ f, EvClient (WriteFile f.1 f.2)) files) = files ∧
  bar (map (λ f, EvClient (WriteFile f.1 f.2)) files) = [].
Proof.
  induction files as [|[path body] files (IHr & IHw & IHb)]; [done|].
  cbn. split_and!; [done| |done]. by f_equal.
Qed.

Lemma writes_app evs1 evs2 : writes (evs1 ++ evs2) = writes evs1 ++ writes evs2.
Proof. apply omap_app. Qed.

Lemma bar_app evs1 evs2 : bar (evs1 ++ evs2) = bar evs1 ++ bar evs2.
Proof. apply omap_app. Qed.

(** X7. A run that finds no output directory and returns has: created the
    directory; fetched the works list with one request; requested the detail
    of every work of the list, in order, at its book URL; kept the [txt] of
    the details that pass the detail contract; downloaded each kept URL, in
    order; and written each downloaded body to the file of the output
    directory named after the last segment of its URL. It issued no other
    request and wrote no other file; every write succeeded, and the file
    system it leaves is the created directory followed by these writes. *)
Theorem successful_run (fuel : nat) (w w' : World) :
  fs_exists outputRawPath (fs w) = false →
  main fuel w = Ok () w' →
  ∃ s1 listBody textObjs details texts evs,
    fs_mkdir outputRawPath (fs w) = (None, s1) ∧
    TextsDataCodec (Some listBody) = Right textObjs ∧
    length details = length textObjs ∧
    length texts = length (omap accepted details) ∧
    trace w' = trace w ++ evs ∧
    requests evs =
      (textsUrl, 5000, inr listBody)
      :: zip_with (λ text detail, (bookUrl (slug text), 10000, inr detail))
           textObjs details
      ++ zip_with (λ url text, (url, 10000, inr text)) (omap accepted details) texts ∧
    writes evs =
      zip_with (λ url text, (path_join [outputRawPath; basename url], text))
        (omap accepted details) texts ∧
    fs w' = (write_all (writes evs) s1).2 ∧
    omap rejected (write_all (writes evs) s1).1 = [].
Proof.
  intros Hexists Hmain.
  destruct (main_completed fuel w w' Hexists Hmain)
    as (s1 & n1 & listBody & textObjs & rs1 & evs1 & rs2 & evs2 & Hmkdir & Hrespond
        & Hdecode & Hurls1 & Hreq1 & Hcl1 & Hurls2 & Hreq2 & Hcl2 & Hrej & Hfs & Htr).
  destruct (views_of_reports _ _ _ Hcl1) as [Hw1 _].
  destruct (views_of_reports _ _ _ Hcl2) as [Hw2 _].
  destruct (views_of_writes (map file_of rs2)) as (Hrw & Hww & _).
  eexists s1, listBody, textObjs, (map data rs1), (map data rs2), _.
  assert (∀ evs, trace w' = trace w ++ evs →
            writes evs = map file_of rs2) as Hwrites.
  { intros evs Hevs. rewrite Htr in Hevs. apply app_inv_head in Hevs as <-.
    rewrite !writes_app, Hw1, Hw2, Hww. cbn [writes omap list_omap app].
    apply app_nil_r. }
  split_and!; [done|done| | |exact Htr| | | |].
  - apply (f_equal length) in Hurls1. by rewrite !length_map in *.
  - apply (f_equal length) in Hurls2. by rewrite !length_map in *.
  - rewrite !requests_app, Hrw, Hreq1, Hreq2. cbn [requests omap list_omap app].
    rewrite app_nil_r. f_equal. f_equal.
    + rewrite map_map in Hurls1. by apply responses_zip_with.
    + rewrite <- Hurls2. apply (responses_zip_with id). by rewrite map_id.
  - rewrite (Hwrites _ Htr), files_zip_with. by rewrite Hurls2.
  - by rewrite (Hwrites _ Htr).
  - by rewrite (Hwrites _ Htr).
Qed.

(** X8. In a run that finds no output directory and returns, the progress
    bar is started twice, once per phase, and in each phase the amounts
    reported afterwards add up exactly to the total the bar was started
    with; every amount is at least 1 and at most the configured
    concurrency. *)
Theorem progress_bar_fills (fuel : nat) (w w' : World) :
  fs_exists outputRawPath (fs w) = false →
  main fuel w = Ok () w' →
  ∃ evs amounts1 amounts2,
    trace w' = trace w ++ evs ∧
    bar evs =
      inl (foldr Z.add 0 amounts1) :: map inr amounts1
      ++ inl (foldr Z.add 0 amounts2) :: map inr amounts2 ∧
    Forall (λ amount, 1 ≤ amount ≤ config.reqConcurrency) (amounts1 ++ amounts2).
Proof.
  intros Hexists Hmain.
  destruct (main_completed fuel w w' Hexists Hmain)
    as (s1 & n1 & listBody & textObjs & rs1 & evs1 & rs2 & evs2 & Hmkdir & Hrespond
        & Hdecode & Hurls1 & Hreq1 & Hcl1 & Hurls2 & Hreq2 & Hcl2 & Hrej & Hfs & Htr).
  destruct (views_of_reports _ _ _ Hcl1) as [_ Hb1].
  destruct (views_of_reports _ _ _ Hcl2) as [_ Hb2].
  destruct (views_of_writes (map file_of rs2)) as (_ & _ & Hbw).
  assert (∀ urls : list string,
            foldr Z.add 0
              (map (λ b, Z.of_nat (length b))
                 (chunks (Z.to_nat config.reqConcurrency) urls))
            = Z.of_nat (length urls)) as Hsum.
  { intros urls. rewrite length_concat_sum. unfold chunks.
    by rewrite chunks_aux_concat by (unfold config.reqConcurrency; lia). }
  assert (∀ urls : list string,
            Forall (λ amount, 1 ≤ amount ≤ config.reqConcurrency)
              (map (λ b, Z.of_nat (length b))
                 (chunks (Z.to_nat config.reqConcurrency) urls))) as Hbounds.
  { intros urls. apply Forall_forall. intros amount Hin.
    apply list_elem_of_fmap in Hin as (b & -> & Hb).
    apply list_elem_of_lookup in Hb as [k Hk].
    assert (1 ≤ Z.to_nat config.reqConcurrency)%nat as Hs
      by (unfold config.reqConcurrency; lia).
    destruct (chunks_aux_sizes _ _ _ _ _ Hs Hk) as [Hsize _].
    unfold config.reqConcurrency in *. lia. }
  assert (length (omap accepted (map data rs1)) = length rs2) as Hlen2.
  { apply (f_equal length) in Hurls2. by rewrite length_map in Hurls2. }
  eexists _,
    (map (λ b, Z.of_nat (length b))
       (chunks (Z.to_nat config.reqConcurrency) (map slug textObjs))),
    (map (λ b, Z.of_nat (length b))
       (chunks (Z.to_nat config.reqConcurrency) (omap accepted (map data rs1)))).
  split; [exact Htr|]. split.
  - rewrite !bar_app, Hb1, Hb2, Hbw. cbn [bar omap list_omap app].
    by rewrite app_nil_r, !Hsum, length_map, Hlen2, !map_map.
  - apply Forall_app_2; apply Hbounds.
Qed.

(** X9. An empty works list: the run creates the directory, issues the
    request of the list and no other, starts both phases with a total of 0,
    writes nothing and ends normally (one unit of fuel suffices). *)
Theorem empty_works_list (fuel : nat) (w : World) (s1 : FS) (n1 : Net) :
  fs_exists outputRawPath (fs w) = false →
  fs_mkdir outputRawPath (fs w) = (None, s1) →
  respond textsUrl 5000 (net w) = (inr (JArr []), n1) →
  main (S fuel) w =
    Ok () {| net := n1; fs := s1;
             trace := trace w
               ++ [EvClient Clear; EvClient (Mkdir outputRawPath);
                   EvClient (Log MsgGettingSlugs);
                   EvRequest textsUrl 5000 (inr (JArr []));
                   EvClient (Log MsgFiltering); EvClient (ProgStart 0);
                   EvClient (Log MsgDownloading); EvClient (ProgStart 0);
                   EvAwaitAll 0; EvClient (Log MsgDone)] |}.
Proof.
  intros Hexists Hmkdir Hrespond. rewrite main_start, Hmkdir, Hrespond by done.
  assert (∀ A (processData : processData_t A) formatUrl w0,
            makeConcurrentHttpsReqs (S fuel) [] config.reqConcurrency processData
              (Some incrementProgBar) formatUrl w0 = Ok [] w0) as Hnil.
  { intros A processData formatUrl w0. unfold makeConcurrentHttpsReqs.
    rewrite run_bind, batchLoop_S. cbn. by destruct processData. }
  cbn [TextsDataCodec t.array t.items map length].
  rewrite run_bind, run_bind, lift_clog. cbv beta iota.
  rewrite run_bind, lift_clog. cbv beta iota.
  rewrite run_bind, Hnil.
  rewrite run_bind, lift_clog. cbv beta iota.
  rewrite run_bind, lift_clog. cbv beta iota.
  rewrite run_bind, Hnil. rewrite run_bind. unfold Promise_all. cbn [omap list_omap length].
  rewrite run_ret, lift_clog, !emit_emit. unfold emit. cbn [net fs trace app].
  by rewrite <- !app_assoc.
Qed.

End MainExtras.

(** ** Beyond the claims: a run that throws *)

Section Throwing.
Context `{Platform}.

Lemma no_write_app evs1 evs2 : no_write evs1 → no_write evs2 → no_write (evs1 ++ evs2).
Proof. unfold no_write. rewrite writes_app. by intros -> ->. Qed.

Lemma emits_bind_no_write {A B} (m : M A) (k : A → M B) :
  emits no_write m → (∀ a, emits no_write (k a)) → emits no_write (x ← m; k x).
Proof.
  intros Hm Hk. apply (emits_bind no_write no_write); auto using no_write_app.
Qed.

Lemma emits_clog_no_write (c : cevent) :
  (∀ path body, c ≠ WriteFile path body) → emits no_write (lift (clog c)).
Proof.
  intros Hc w. rewrite lift_clog. exists [EvClient c]. split; [done|].
  unfold no_write. destruct c; try done. by destruct (Hc path body).
Qed.

Lemma emits_batchLoop_no_write fuel urls concurrency formatUrl :
  ∀ i reqResults,
    emits no_write
      (batchLoop fuel urls concurrency (Some incrementProgBar) formatUrl i reqResults).
Proof.
  induction fuel as [|fuel IH]; intros i acc; [by intros w|].
  rewrite batchLoop_S. destruct (_ <? _); [|by apply emits_ret].
  apply emits_bind_no_write.
  - intros w. destruct (fetchBatch_spec formatUrl (slice urls i (i + concurrency)) w)
      as (ss & _ & Hfetch).
    destruct (fetchBatch _ _ w) as [rs w'|e w'|]; [| |done];
      destruct Hfetch as [Htr _]; eexists; (split; [exact Htr|]);
      unfold no_write; by rewrite writes_clients, clients_batch.
  - intros rs. apply emits_bind_no_write; [|intros _; apply IH].
    by apply emits_clog_no_write.
Qed.

Lemma write_all_rejected files s x :
  x ∈ omap rejected (write_all files s).1 → ∃ code, x = FsError code.
Proof.
  revert s. induction files as [|[path body] files IH]; intros s Hx.
  { by apply not_elem_of_nil in Hx. }
  cbn [write_all] in Hx. destruct (fs_write path body s) as [[code|] s'].
  - specialize (IH s'). destruct (write_all files s') as [ps s'']. cbn in Hx, IH.
    apply elem_of_cons in Hx as [->|Hx]; [by exists code|by apply IH].
  - specialize (IH s'). destruct (write_all files s') as [ps s'']. cbn in Hx, IH.
    by apply IH.
Qed.

(** X10. A run that finds no output directory and throws has written no
    file, unless what it throws is the failure of one of its writes: a
    rejected request, in either phase, or a malformed works list leaves the
    output directory empty, also of the texts already downloaded. *)
Theorem no_partial_archive (fuel : nat) (w w' : World) (e : exn) :
  fs_exists outputRawPath (fs w) = false →
  main fuel w = Exn e w' →
  ∃ evs,
    trace w' = trace w ++ evs ∧
    (writes evs = [] ∨ ∃ code, e = FsError code).
Proof.
  intros Hexists Hmain. rewrite main_start in Hmain by done.
  destruct (fs_mkdir outputRawPath (fs w)) as [[code|] s1].
  { injection Hmain as <- <-. eexists. split; [done|]. by left. }
  destruct (respond textsUrl 5000 (net w)) as [[e0|listBody] n1].
  { injection Hmain as <- <-. eexists. split; [done|]. by left. }
  destruct (TextsDataCodec (Some listBody)) as [errs|textObjs].
  { injection Hmain as <- <-. eexists. split; [done|]. by left. }
  assert (∀ w2 : World, ∀ evs0 : list event,
            trace w2 = trace w ++ evs0 → no_write evs0 →
            ∀ evs, trace w' = trace w2 ++ evs → no_write evs →
            ∃ evs', trace w' = trace w ++ evs' ∧
                    (writes evs' = [] ∨ ∃ code, e = FsError code)) as Hdone.
  { intros w2 evs0 Hw2 Hevs0 evs Hevs Hnw. exists (evs0 ++ evs).
    split; [by rewrite Hevs, Hw2, app_assoc|]. left. by apply no_write_app. }
  rewrite run_bind in Hmain.
  match type of Hmain with
  | match ?m ?w2 with _ => _ end = _ => destruct (m w2) as [[] w8|e8 w8|] eqn:Hbody
  end; [by rewrite lift_clog in Hmain| |done].
  injection Hmain as -> ->.
  rewrite run_bind, lift_clog in Hbody. cbv beta iota in Hbody.
  rewrite run_bind, lift_clog in Hbody. cbv beta iota in Hbody.
  rewrite emit_emit in Hbody. rewrite run_bind in Hbody.
  match type of Hbody with
  | match makeConcurrentHttpsReqs _ _ _ _ _ _ ?w3 with _ => _ end = _ =>
      pose proof (emits_batchLoop_no_write fuel (map slug textObjs)
                    config.reqConcurrency (Some bookUrl) 0 [] w3) as Hloop1;
      assert (trace w3 = trace w ++
                [EvClient Clear; EvClient (Mkdir outputRawPath);
                 EvClient (Log MsgGettingSlugs); EvRequest textsUrl 5000 (inr listBody);
                 EvClient (Log MsgFiltering);
                 EvClient (ProgStart (Z.of_nat (length (map slug textObjs))))]) as Hw3
        by (cbn [emit trace]; by rewrite <- !app_assoc);
      revert Hbody Hloop1; generalize dependent w3
  end.
  intros w3 Hw3. unfold makeConcurrentHttpsReqs at 1. rewrite !run_bind.
  destruct (batchLoop _ _ _ _ _ _ _ w3) as [rs1 w4|e4 w4|]; [| |done].
  2: { intros [= -> ->] (evs & Htr & Hnw). by eapply Hdone. }
  cbn [finish]. rewrite reduceM_filterCollections. cbn [app].
  intros Hbody (evs1 & Htr1 & Hnw1).
  rewrite run_bind, lift_clog in Hbody. cbv beta iota in Hbody.
  rewrite run_bind, lift_clog in Hbody. cbv beta iota in Hbody.
  rewrite emit_emit in Hbody. rewrite run_bind in Hbody.
  match type of Hbody with
  | match makeConcurrentHttpsReqs _ ?urls _ _ _ _ ?w5 with _ => _ end = _ =>
      pose proof (emits_batchLoop_no_write fuel urls config.reqConcurrency None 0 []
                    w5) as Hloop2;
      assert (∃ evs5, trace w5 = trace w ++ evs5 ∧ no_write evs5) as (evs5 & Hw5 & Hnw5);
      [|revert Hbody Hloop2; generalize dependent w5]
  end.
  { eexists. split.
    - cbn [emit trace]. rewrite Htr1, Hw3. by rewrite <- !app_assoc.
    - apply no_write_app; [done|]. by apply no_write_app. }
  intros w5 Hw5. unfold makeConcurrentHttpsReqs at 1. rewrite !run_bind.
  destruct (batchLoop _ _ _ _ _ _ _ w5) as [rs2 w6|e6 w6|]; [| |done].
  2: { intros [= -> ->] (evs & Htr & Hnw). by eapply Hdone. }
  cbn [finish]. rewrite reduceM_writeText. cbn [app].
  intros Hbody (evs2 & Htr2 & Hnw2).
  rewrite run_bind in Hbody. unfold Promise_all in Hbody.
  destruct (omap rejected (write_all (map file_of rs2) (fs w6)).1) as [|x xs] eqn:Hrej;
    [by rewrite run_ret in Hbody|].
  injection Hbody as <- <-. eexists.
  split; [cbn [emit trace]; rewrite Htr2, Hw5, <- !app_assoc; reflexivity|].
  right. apply (write_all_rejected (map file_of rs2) (fs w6)).
  rewrite Hrej. apply race_In.
Qed.

End Throwing.

(** ** Runs on the scripted platform *)

(** Two targets with the configured concurrency of 10: one batch. *)
Lemma single_batch_witness :
  ["a"; "b"] ≠ [] ∧ Z.of_nat (length ["a"; "b"]) ≤ 10 ∧ (2 ≤ 2)%nat ∧
  ∃ w',
    makeConcurrentHttpsReqs 2 ["a"; "b"] 10 (@Omitted (scripted echo)) None None
      (fresh echo) = Ok [JStr "a"; JStr "b"] w' ∧
    wire (trace w') = [inl ("a", 10000); inl ("b", 10000); inr 2%nat].
Proof.
  split; [done|]. split; [simpl; lia|]. split; [lia|].
  destruct (single_batch (H := scripted echo) ["a"; "b"] 10 Omitted None None 2
              (fresh echo) ltac:(done) ltac:(simpl; lia) ltac:(lia)) as [_ Hrun].
  eexists. rewrite Hrun. split; vm_compute; reflexivity.
Defined.

(** Nothing can be reached: the first run fails after creating the
    directory, and a second run does nothing. *)
Lemma failed_start_witness :
  ∃ w',
    main (H := scripted unreachable) 4 (fresh unreachable)
      = Exn (AxiosError NetworkError) w' ∧
    ∃ w'', main 4 w' = Ok () w'' ∧
           trace w'' = trace w' ++ [EvClient Clear; EvClient (Log MsgDone)].
Proof.
  destruct (failed_start (H := scripted unreachable) 4 (fresh unreachable) eq_refl)
    as [_ Hlist].
  destruct (Hlist _ NetworkError () eq_refl eq_refl) as (w' & Hrun & Hw' & Hnext).
  exists w'. split; [exact Hrun|].
  eexists. split; [apply Hnext; reflexivity|reflexivity].
Defined.

(** The small library: the texts of ["a"] and ["c"] are written. *)
Lemma successful_run_witness :
  ∃ w',
    main (H := scripted library) 4 (fresh library) = Ok () w' ∧
    map fst (writes (trace w')) =
      ["/app/src/../output/raw/a.txt"; "/app/src/../output/raw/c.txt"] ∧
    ∃ s1, @fs (scripted library) w' = (write_all (writes (trace w')) s1).2.
Proof.
  assert (match main (H := scripted library) 4 (fresh library) with
          | Ok _ w => map fst (writes (trace w))
          | _ => []
          end
          = ["/app/src/../output/raw/a.txt"; "/app/src/../output/raw/c.txt"])
    as Hfiles by (vm_compute; reflexivity).
  destruct (main (H := scripted library) 4 (fresh library)) as [[] w'|e w'|] eqn:Hrun;
    [|discriminate Hfiles..].
  exists w'. split; [reflexivity|]. split; [exact Hfiles|].
  destruct (successful_run (H := scripted library) 4 (fresh library) w' eq_refl Hrun)
    as (s1 & listBody & textObjs & details & texts & evs & _ & _ & _ & _ & Htr & _ & _
        & Hfs & _).
  exists s1. change (trace (fresh library)) with (@nil event) in Htr.
  rewrite app_nil_l in Htr. by rewrite Htr.
Defined.

(** The small library: three details in one batch, two downloads in one
    batch. *)
Lemma progress_bar_fills_witness :
  ∃ w',
    main (H := scripted library) 4 (fresh library) = Ok () w' ∧
    bar (trace w') = [inl 3; inr 3; inl 2; inr 2].
Proof.
  assert (match main (H := scripted library) 4 (fresh library) with
          | Ok _ w => bar (trace w)
          | _ => []
          end = [inl 3; inr 3; inl 2; inr 2]) as Hbar by (vm_compute; reflexivity).
  destruct (main (H := scripted library) 4 (fresh library)) as [[] w'|e w'|] eqn:Hrun;
    [|discriminate Hbar..].
  exists w'. split; [reflexivity|].
  destruct (progress_bar_fills (H := scripted library) 4 (fresh library) w' eq_refl Hrun)
    as (evs & amounts1 & amounts2 & Htr & _ & _).
  exact Hbar.
Defined.

(** Against the service with no work to offer. *)
Lemma empty_works_list_witness :
  ∃ w',
    main (H := scripted vacant) 1 (fresh vacant) = Ok () w' ∧
    requests (trace w') = [(textsUrl, 5000, inr (JArr []))] ∧
    writes (trace w') = [].
Proof.
  eexists. split.
  - apply (empty_works_list (H := scripted vacant) 0 (fresh vacant)); reflexivity.
  - split; reflexivity.
Defined.

(** One download of two is rejected: the run throws and writes nothing,
    not even the text that was downloaded. *)
Lemma no_partial_archive_witness :
  ∃ w',
    main (H := scripted torn) 4 (fresh torn) = Exn (AxiosError NetworkError) w' ∧
    writes (trace w') = [].
Proof.
  assert (match main (H := scripted torn) 4 (fresh torn) with
          | Exn e _ => Some e
          | _ => None
          end = Some (AxiosError NetworkError)) as Hexn by (vm_compute; reflexivity).
  destruct (main (H := scripted torn) 4 (fresh torn)) as [[] w'|e w'|] eqn:Hrun;
    [discriminate Hexn| |discriminate Hexn].
  injection Hexn as ->. exists w'. split; [reflexivity|].
  destruct (no_partial_archive (H := scripted torn) 4 (fresh torn) w' _ eq_refl Hrun)
    as (evs & Htr & [Hnone|[code Hcode]]); [|discriminate Hcode].
  change (trace (fresh torn)) with (@nil event) in Htr.
  rewrite app_nil_l in Htr. by rewrite Htr.
Defined.
